(** * node-two-captcha-ts: the Captcha result type and the 2Captcha client

    A shallow embedding of [src/Captcha.ts], [src/http_request.ts] and
    [src/TwoCaptchaClient.ts].  Strings are Rocq strings, the clock counts
    integer milliseconds, the numbers of the configuration are any
    JavaScript number ([NaN] and the infinities included), a reply is what
    axios hands over (a string, or the value of a body that parses as JSON),
    the error table of [constants.js] is a finite map, and the asynchronous
    methods are computations over an explicit world (clock, scripted HTTP
    replies, event trace) that either return or throw. *)

From Stdlib Require Import ZArith QArith Qround Ascii String Lia.
From stdpp Require Import gmap strings list.

Local Open Scope Z_scope.

(** ** JavaScript values held by the fields of the program

    The fields [_id] and [_text] are declared [string], but array
    destructuring of a too short array stores [undefined] in them, so the
    model keeps both inhabitants. *)
Inductive value :=
| undefined
| str (s : string).

Definition typeof (v : value) : string :=
  match v with
  | undefined => "undefined"
  | str _ => "string"
  end.

(** [v === ''] *)
Definition is_empty_string (v : value) : bool :=
  match v with
  | str "" => true
  | _ => false
  end.

(** The numbers the accessors produce: integers that a double holds, and
    the two values the conversion of a string can also give. *)
Inductive number :=
| NaN
| Infinity
| Int (z : Z).

Inductive exn :=
| Error (message : string)
| TypeError (message : string).

Inductive outcome (A : Type) :=
| Ret (a : A)
| Throw (e : exn).
Arguments Ret {A} a.
Arguments Throw {A} e.

(** [res.data], the reply as the HTTP helper returns it.  It is declared a
    string, and it is the body as a string unless the body parses as JSON:
    then axios hands over the value parsed, which is a string again for a
    quoted body and else [null], a boolean, a number, an array or an object.
    Of a value that is no string and not [null] the client uses two things,
    each of which can throw: its conversion to a string, as a property key
    and in a template literal, and the result of its [toString()]. *)
Inductive data :=
| Text (s : string)
| Null
| Value (key shown : outcome string).

(** ** String built-ins used by the sources *)
Module JS.

(** The character class [[0-9]], which is also [\d] without the unicode flag. *)
Definition is_digit (c : ascii) : bool :=
  ((48 <=? nat_of_ascii c) && (nat_of_ascii c <=? 57))%nat.

Definition digit_value (c : ascii) : Z := Z.of_nat (nat_of_ascii c) - 48.

Fixpoint decimal (acc : Z) (s : string) : option Z :=
  match s with
  | EmptyString => Some acc
  | String c s' =>
      if is_digit c then decimal (10 * acc + digit_value c) s' else None
  end.

(** The double nearest to an integer [z >= 2^53], ties to even: the 53
    leading bits, rounded on the bits dropped. *)
Definition round53 (z : Z) : Z :=
  let e := Z.log2 z - 52 in
  let q := Z.shiftr z e in
  let r := Z.land z (Z.ones e) in
  let half := Z.shiftl 1 (e - 1) in
  let q' := if (half <? r) || ((r =? half) && Z.odd q) then q + 1 else q in
  Z.shiftl q' e.

Definition to_double (z : Z) : number :=
  if z <? 2 ^ 53 then Int z
  else if round53 z <? 2 ^ 1024 then Int (round53 z)
  else Infinity.

(** [Number(s)] on the strings the accessors pass to it, which are runs of
    decimal digits: the double nearest to the integer the digits denote.
    Other numeric literal forms never reach this call and are mapped to
    [NaN]. *)
Definition Number (s : string) : number :=
  match decimal 0 s with
  | Some z => to_double z
  | None => NaN
  end.

Fixpoint startsWith (pat s : string) : bool :=
  match pat, s with
  | EmptyString, _ => true
  | String p pat', String c s' => if decide (p = c) then startsWith pat' s' else false
  | String _ _, EmptyString => false
  end.

Fixpoint drop (n : nat) (s : string) : string :=
  match n, s with
  | S k, String _ s' => drop k s'
  | _, _ => s
  end.

(** [s.includes(pat)] *)
Fixpoint includes (pat s : string) : bool :=
  startsWith pat s ||
  match s with
  | EmptyString => false
  | String _ s' => includes pat s'
  end.

(** [s.replace(pat, repl)] with a string pattern: only the first occurrence
    is replaced.  The sources pass [''] as replacement, so the [$] patterns
    of replacement strings do not arise. *)
Fixpoint replace (pat repl s : string) : string :=
  if startsWith pat s then repl +:+ drop (String.length pat) s
  else match s with
       | EmptyString => EmptyString
       | String c s' => String c (replace pat repl s')
       end.

(** The pieces of [s] between occurrences of the one-character separator. *)
Fixpoint pieces (sep : ascii) (cur s : string) : list string :=
  match s with
  | EmptyString => [cur]
  | String c s' =>
      if decide (c = sep) then cur :: pieces sep EmptyString s'
      else pieces sep (cur +:+ String c EmptyString) s'
  end.

(** [s.split(sep, limit)] *)
Definition split (sep : ascii) (limit : nat) (s : string) : list string :=
  take limit (pieces sep EmptyString s).

(** Reading index [i] of an array: [undefined] past the end. *)
Definition at_index (l : list string) (i : nat) : value :=
  match l !! i with
  | Some s => str s
  | None => undefined
  end.

(** [v === s] for a reply and a string. *)
Definition strict_equal (v : data) (s : string) : bool :=
  match v with
  | Text t => bool_decide (t = s)
  | _ => false
  end.

(** The string a reply converts to, as the key in [errors[v]] and in the
    template literal. *)
Definition to_key (v : data) : outcome string :=
  match v with
  | Text s => Ret s
  | Null => Ret "null"
  | Value key _ => key
  end.

(** [v.toString()] *)
Definition toString (v : data) : outcome string :=
  match v with
  | Text s => Ret s
  | Null => Throw (TypeError "Cannot read properties of null (reading 'toString')")
  | Value _ shown => shown
  end.

(** The receiver of [res.split(...)]: only a string has the method. *)
Definition split_receiver (res : data) : outcome string :=
  match res with
  | Text s => Ret s
  | Null => Throw (TypeError "Cannot read properties of null (reading 'split')")
  | Value _ _ => Throw (TypeError "res.split is not a function")
  end.

End JS.

(** ** The numbers of the configuration

    [timeout] and [polling] are stored as they are given, so they can be any
    JavaScript number.  A finite one is a rational, as every double is; the
    program compares these numbers with differences of clock readings,
    takes their maximum and hands them to a timer, and does no arithmetic
    on them, so no rounding arises. *)
Module Num.

Inductive t :=
| nan
| plus_infinity
| minus_infinity
| fin (q : Q).

Definition of_Z (z : Z) : t := fin (inject_Z z).

(** [a > b] for an integer [a]: false when [b] is [NaN]. *)
Definition int_gt (a : Z) (b : t) : bool :=
  match b with
  | nan => false
  | plus_infinity => false
  | minus_infinity => true
  | fin q => negb (Qle_bool (inject_Z a) q)
  end.

(** [Math.max(a, b)]: [NaN] when either is. *)
Definition max (a b : t) : t :=
  match a, b with
  | nan, _ | _, nan => nan
  | plus_infinity, _ | _, plus_infinity => plus_infinity
  | minus_infinity, x | x, minus_infinity => x
  | fin p, fin q => if Qle_bool p q then fin q else fin p
  end.

(** A number that a difference of clock readings can exceed. *)
Definition is_deadline (x : t) : bool :=
  match x with
  | nan | plus_infinity => false
  | minus_infinity | fin _ => true
  end.

End Num.

(** ** Regular expressions

    The two patterns of [Captcha.ts] are sequences of literal characters and
    greedy [+] repetitions of a character class, some of them capturing.  The
    matcher is the usual backtracking one: a repetition first takes the
    longest run and gives characters back one at a time while the rest of the
    pattern fails. *)
Module RegExp.

Inductive atom :=
| Lit (c : ascii)
| Plus (cls : ascii -> bool) (capturing : bool).

Definition regex := list atom.

(** A successful match at a position: the matched text, the captured groups
    and the text that follows. *)
Definition hit : Type := string * list string * string.

Fixpoint greedy (cls : ascii -> bool) (k : string -> string -> option hit)
    (run s : string) : option hit :=
  match s with
  | String c s' =>
      if cls c then
        match greedy cls k (run +:+ String c EmptyString) s' with
        | Some h => Some h
        | None => k run s
        end
      else k run s
  | EmptyString => k run s
  end.

Fixpoint match_here (re : regex) (s : string) : option hit :=
  match re with
  | [] => Some (EmptyString, [], s)
  | Lit c :: re' =>
      match s with
      | String d s' =>
          if decide (c = d) then
            match match_here re' s' with
            | Some (m, gs, r) => Some (String d m, gs, r)
            | None => None
            end
          else None
      | EmptyString => None
      end
  | Plus cls capturing :: re' =>
      match s with
      | String d s' =>
          if cls d then
            greedy cls
              (fun run r =>
                 match match_here re' r with
                 | Some (m, gs, r') =>
                     Some (run +:+ m, if capturing then run :: gs else gs, r')
                 | None => None
                 end)
              (String d EmptyString) s'
          else None
      | EmptyString => None
      end
  end.

(** [re.exec(s)] for a pattern without the [g] flag: the leftmost match, as
    the array of the whole match followed by the groups, or [null]. *)
Fixpoint exec (re : regex) (s : string) : option (list string) :=
  match match_here re s with
  | Some (m, gs, _) => Some (m :: gs)
  | None =>
      match s with
      | String _ s' => exec re s'
      | EmptyString => None
      end
  end.

(** The successive matches of a [g] pattern: after a match the search
    resumes where the match ended ([skip] counts the characters of the
    match still to pass over), one character further after an empty one. *)
Fixpoint match_all (re : regex) (skip : nat) (s : string) : list string :=
  match skip, s with
  | S k, String _ s' => match_all re k s'
  | S _, EmptyString => []
  | O, String _ s' =>
      match match_here re s with
      | Some (m, _, _) => m :: match_all re (pred (String.length m)) s'
      | None => match_all re 0 s'
      end
  | O, EmptyString =>
      match match_here re s with
      | Some (m, _, _) => [m]
      | None => []
      end
  end.

(** [s.match(re)] for a pattern with the [g] flag: all matched substrings,
    or [null] when there is none. *)
Definition match_g (re : regex) (s : string) : option (list string) :=
  match match_all re 0 s with
  | [] => None
  | ms => Some ms
  end.

End RegExp.

(** ** [Captcha.ts] *)
Record Captcha := mkCaptcha {
  _id : value;
  _text : value;
  _apiResponse : string
}.

(** [new Captcha()] *)
Definition new_Captcha : Captcha :=
  {| _id := str ""; _text := str ""; _apiResponse := "" |}.

Definition set_id (newId : value) (c : Captcha) : Captcha :=
  {| _id := newId; _text := _text c; _apiResponse := _apiResponse c |}.

Definition set_text (newText : value) (c : Captcha) : Captcha :=
  {| _id := _id c; _text := newText; _apiResponse := _apiResponse c |}.

Definition set_apiResponse (newApiResponse : string) (c : Captcha) : Captcha :=
  {| _id := _id c; _text := _text c; _apiResponse := newApiResponse |}.

(** [/\d+/g] *)
Definition digits_re : RegExp.regex := [RegExp.Plus JS.is_digit false].

(** [/x=([0-9]+),y=([0-9]+)/] *)
Definition xy_re : RegExp.regex :=
  [RegExp.Lit "x"; RegExp.Lit "="; RegExp.Plus JS.is_digit true;
   RegExp.Lit ","; RegExp.Lit "y"; RegExp.Lit "="; RegExp.Plus JS.is_digit true]%char.

(** A method called on a field that holds [undefined] throws. *)
Definition on_string {A : Type} (v : value) (method : string) (f : string -> A) : outcome A :=
  match v with
  | str s => Ret (f s)
  | undefined =>
      Throw (TypeError ("Cannot read properties of undefined (reading '" +:+ method +:+ "')"))
  end.

Definition indexes (c : Captcha) : outcome (list number) :=
  on_string (_text c) "replace" (fun text =>
    let matches := RegExp.match_g digits_re (JS.replace "click:" "" text) in
    match matches with
    | Some ms => map JS.Number ms
    | None => []
    end).

Definition coordinateParser (text : string) : list number :=
  match RegExp.exec xy_re text with
  | Some m =>
      [match JS.at_index m 1 with str s => JS.Number s | undefined => NaN end;
       match JS.at_index m 2 with str s => JS.Number s | undefined => NaN end]
  | None => []
  end.

Definition coordinates (c : Captcha) : outcome (list (list number)) :=
  on_string (_text c) "match" (fun text =>
    let matches := RegExp.match_g xy_re text in
    match matches with
    | Some ms => map coordinateParser ms
    | None => []
    end).

(** ** The world the client runs in

    [Date.now()], timers, axios, the file system and [console.warn] are the
    program's only contact with its surroundings.  The environment scripts
    what they answer; the world records the clock, how many requests to the
    service and timers were consumed, and the events in the order they
    happened.  The event of a timer holds the delay asked for and the time
    it took to fire. *)
Inductive event :=
| EvNow
| EvSleep (ms : Num.t) (took : Z)
| EvRequest (action method : string)
| EvDownload (url : string)
| EvWarn (message : string).

Record Env := mkEnv {
  http : nat -> outcome data;        (* [res.data] of the n-th reply, or a rejected request *)
  http_ms : nat -> N;                (* time the n-th request takes *)
  timer_late : nat -> N;             (* delay of the n-th timer beyond the requested one *)
  readFile : string -> outcome string;
  fetch : string -> outcome string;  (* the bytes [axios.get] receives from a URL *)
  fetch_ms : string -> N;            (* time the download takes *)
  toBase64 : string -> string
}.

Record World := mkWorld {
  clock : Z;
  requests : nat;
  timers : nat;
  trace : list event
}.

Definition log (e : event) (w : World) : World :=
  {| clock := clock w; requests := requests w; timers := timers w;
     trace := trace w ++ [e] |}.

(** Computations that return or throw, threading the world. *)
Definition M (A : Type) : Type := World -> outcome A * World.

Definition ret {A : Type} (a : A) : M A := fun w => (Ret a, w).

Definition throw {A : Type} (e : exn) : M A := fun w => (Throw e, w).

Definition bind {A B : Type} (m : M A) (k : A -> M B) : M B :=
  fun w =>
    match m w with
    | (Ret a, w') => k a w'
    | (Throw e, w') => (Throw e, w')
    end.

Notation "'let!' x := m 'in' k" := (bind m (fun x => k))
  (at level 10, x name, m at level 200, k at level 200).
Notation "'do!' m 'in' k" := (bind m (fun _ => k))
  (at level 10, m at level 200, k at level 200).

(** Lifting an answer of the environment: a rejected promise throws at the [await]. *)
Definition await {A : Type} (o : outcome A) : M A := fun w => (o, w).

Definition Date_now : M Z := fun w => (Ret (clock w), log EvNow w).

Definition console_warn (message : string) : M unit :=
  fun w => (Ret tt, log (EvWarn message) w).

(** Node's timers run a delay that is [NaN], below 1 or above 2^31-1 as a
    delay of 1, and drop the fraction of any other. *)
Definition timer_delay (ms : Num.t) : Z :=
  match ms with
  | Num.fin q =>
      if Qle_bool (inject_Z 1) q && Qle_bool q (inject_Z 2147483647)
      then Qfloor q else 1
  | _ => 1
  end.

(** ** [TwoCaptchaClient.ts] *)
Record TwoCaptchaClient := mkClient {
  key : value;
  timeout : Num.t;
  polling : Num.t;
  throwErrors : bool
}.

Record params := mkParams {
  p_timeout : option Num.t;
  p_polling : option Num.t;
  p_throwErrors : option bool
}.

Record image_options := mkImage {
  o_base64 : option string;
  o_buffer : option string;
  o_path : option string;
  o_url : option string
}.

Record site_options := mkSite {
  o_sitekey : option string;     (* [googlekey] for the ReCaptcha methods *)
  o_pageurl : option string
}.

(** What one turn of a polling loop decides. *)
Inductive turn :=
| Return (c : Captcha)
| Continue (c : Captcha).

Definition not_solved_yet : string := "Your captcha is not solved yet.".

(** [!s] for an optional string: [undefined] and [''] are falsy. *)
Definition falsy (s : option string) : bool :=
  match s with
  | None | Some "" => true
  | Some _ => false
  end.

Section Client.

(** [constants.errors], the table from error code to message. *)
Variable errors : gmap string string.
Variable env : Env.

(** [HTTPRequest.request] returns [res.data] as axios gives it; the
    payload does not influence the scripted reply and is left out of the
    event. *)
Definition HTTPRequest_request (action method : string) : M data :=
  fun w =>
    (http env (requests w),
     {| clock := clock w + Z.of_N (http_ms env (requests w));
        requests := S (requests w);
        timers := timers w;
        trace := trace w ++ [EvRequest action method] |}).

(** [HTTPRequest.openDataURL] for a URL that is a string: whatever the
    download throws is thrown again as an [Error] that names the URL. *)
Definition HTTPRequest_openDataURL (url : string) : M string :=
  fun w =>
    (match fetch env url with
     | Ret bytes => Ret bytes
     | Throw (Error message) | Throw (TypeError message) =>
         Throw (Error ("Failed to fetch data from URL: " +:+ url +:+
                       ". Error: " +:+ message))
     end,
     {| clock := clock w + Z.of_N (fetch_ms env url);
        requests := requests w;
        timers := timers w;
        trace := trace w ++ [EvDownload url] |}).

Definition _sleep (ms : Num.t) : M unit :=
  fun w =>
    (Ret tt,
     {| clock := clock w + (timer_delay ms + Z.of_N (timer_late env (timers w)));
        requests := requests w;
        timers := S (timers w);
        trace := trace w ++
                 [EvSleep ms (timer_delay ms + Z.of_N (timer_late env (timers w)))] |}).

Section Methods.

Variable this : TwoCaptchaClient.

Definition _throwError (message : string) : M bool :=
  if decide (message = not_solved_yet) then ret false
  else if throwErrors this then throw (Error message)
  else do! console_warn message in ret false.

(** The message [_validateResponse] settles on, [None] when it takes the
    branch that returns [true]; the conversions of a body that is no string
    can throw.  A key without an entry of its own reads as [undefined] or as
    an inherited property, neither of which is a string. *)
Definition validation_message (body : data) : outcome (option string) :=
  match JS.to_key body with
  | Throw e => Throw e
  | Ret key =>
      match errors !! key with
      | Some (String c e) => Ret (Some (String c e))
      | _ =>
          if JS.strict_equal body "" then Ret (Some ("Unknown 2Captcha error: " +:+ key))
          else match JS.toString body with
               | Throw e => Throw e
               | Ret shown =>
                   if JS.includes "ERROR" shown
                   then Ret (Some ("Unknown 2Captcha error: " +:+ key))
                   else Ret None
               end
      end
  end.

Definition _validateResponse (body : data) : M bool :=
  let! message := await (validation_message body) in
  match message with
  | Some message => do! _throwError message in ret false
  | None => ret true
  end.

Definition _request (action method : string) : M data :=
  let! req := HTTPRequest_request action method in
  do! _validateResponse req in
  ret req.

(** [res.split] throws on a reply that is no string, and the captcha being
    built is lost with the exception; so the receiver is looked at first and
    [apiResponse] only ever holds a string. *)
Definition captcha (captchaId : value) : M Captcha :=
  let! res := _request "res" "get" in
  let! res := await (JS.split_receiver res) in
  let decodedCaptcha := new_Captcha in
  let decodedCaptcha := set_id captchaId decodedCaptcha in
  let decodedCaptcha := set_apiResponse res decodedCaptcha in
  let text := JS.at_index (JS.split "|" 2 res) 1 in
  let decodedCaptcha := set_text text decodedCaptcha in
  ret decodedCaptcha.

(** The form fields [_upload] assembles travel in the payload, which the
    model leaves out (see [HTTPRequest_request]). *)
Definition _upload : M Captcha :=
  let! res := _request "in" "post" in
  do! _validateResponse res in
  let! res := await (JS.split_receiver res) in
  let decodedCaptcha := new_Captcha in
  let captchaId := JS.at_index (JS.split "|" 2 res) 1 in
  let decodedCaptcha := set_id captchaId decodedCaptcha in
  ret decodedCaptcha.

Definition _loadCaptcha (options : image_options) : M string :=
  if negb (falsy (o_base64 options)) then ret (default "" (o_base64 options))
  else match o_buffer options with
  | Some buffer => ret (toBase64 env buffer)
  | None =>
  if negb (falsy (o_path options)) then
    let! fileBinary := await (readFile env (default "" (o_path options))) in
    ret (toBase64 env fileBinary)
  else if negb (falsy (o_url options)) then
    let! image := HTTPRequest_openDataURL (default "" (o_url options)) in
    ret (toBase64 env image)
  else
    do! _throwError "No image data received" in
    ret ""
  end.

(** The body of the [while] loops, which differ only in the interval
    they sleep. *)
Definition poll_turn (interval : Num.t) (startedAt : Z) (decodedCaptcha : Captcha)
    : M turn :=
  do! _sleep interval in
  let! now := Date_now in
  if Num.int_gt (now - startedAt) (timeout this) then
    do! _throwError "Captcha timeout" in
    ret (Return decodedCaptcha)
  else
    let! decodedCaptcha := captcha (_id decodedCaptcha) in
    ret (Continue decodedCaptcha).

(** [while (decodedCaptcha.text === '') { ... } return decodedCaptcha],
    unrolled at most [fuel] times; [None] when the fuel does not suffice. *)
Fixpoint poll (interval : Num.t) (startedAt : Z) (fuel : nat)
    (decodedCaptcha : Captcha) (w : World) : option (outcome Captcha * World) :=
  if is_empty_string (_text decodedCaptcha) then
    match fuel with
    | O => None
    | S fuel' =>
        match poll_turn interval startedAt decodedCaptcha w with
        | (Ret (Return c), w') => Some (Ret c, w')
        | (Ret (Continue c), w') => poll interval startedAt fuel' c w'
        | (Throw e, w') => Some (Throw e, w')
        end
    end
  else Some (Ret decodedCaptcha, w).

(** A loop run after the statements [before], which yield the start time
    and the uploaded captcha. *)
Definition then_poll (before : M (Z * Captcha)) (interval : Num.t) (fuel : nat)
    (w : World) : option (outcome Captcha * World) :=
  match before w with
  | (Ret (startedAt, c), w') => poll interval startedAt fuel c w'
  | (Throw e, w') => Some (Throw e, w')
  end.

Definition decode_upload (options : image_options) : M (Z * Captcha) :=
  let! startedAt := Date_now in
  do! (if bool_decide (typeof (key this) = "string") then ret false
       else _throwError "2Captcha key must be a string") in
  do! _loadCaptcha options in
  let! decodedCaptcha := _upload in
  ret (startedAt, decodedCaptcha).

Definition decode (options : image_options) (fuel : nat) :=
  then_poll (decode_upload options) (polling this) fuel.

(** The statements before the loop of the three site-key methods; they
    differ in the name of the key and so in [missing_key]. *)
Definition site_upload (missing_key : string) (options : site_options) : M (Z * Captcha) :=
  let! startedAt := Date_now in
  do! (if falsy (o_sitekey options)
       then _throwError missing_key else ret false) in
  do! (if falsy (o_pageurl options)
       then _throwError "Missing pageurl parameter" else ret false) in
  let! decodedCaptcha := _upload in
  ret (startedAt, decodedCaptcha).

Definition decodeRecaptchaV2 (options : site_options) (fuel : nat) :=
  then_poll (site_upload "Missing googlekey parameter" options) (Num.max (polling this) (Num.of_Z 10000)) fuel.

Definition decodeRecaptchaV3 (options : site_options) (fuel : nat) :=
  then_poll (site_upload "Missing googlekey parameter" options) (Num.max (polling this) (Num.of_Z 10000)) fuel.

Definition decodeHCaptcha (options : site_options) (fuel : nat) :=
  then_poll (site_upload "Missing sitekey parameter" options) (Num.max (polling this) (Num.of_Z 10000)) fuel.

End Methods.

(** [new TwoCaptchaClient(key, params)]; [None] is an omitted argument or
    an omitted property. *)
Definition new_TwoCaptchaClient (key : value) (p : option params) : M TwoCaptchaClient :=
  let p := default (mkParams None None None) p in
  let this := {| key := key;
                 timeout := default (Num.of_Z 60000) (p_timeout p);
                 polling := default (Num.of_Z 5000) (p_polling p);
                 throwErrors := default false (p_throwErrors p) |} in
  do! (if bool_decide (typeof key = "string") then ret false
       else _throwError this "2Captcha key must be a string") in
  ret this.

End Client.

(** ** A sample table and scripted surroundings, for running the model *)

(** Entries as the 2Captcha API lists them; the first is the reply to a
    lookup whose answer is pending. *)
Definition sample_errors : gmap string string :=
  {[ "CAPCHA_NOT_READY" := not_solved_yet;
     "ERROR_ZERO_BALANCE" := "You don't have funds on your account.";
     "ERROR_CAPTCHA_UNSOLVABLE" := "We are unable to solve your captcha." ]}.

(** The service answers with [replies] in turn and then fails to answer;
    every request takes 120 ms, a download 80 ms, and timers fire on time. *)
Definition answered (replies : list data) : Env :=
  {| http := fun n =>
       match replies !! n with
       | Some body => Ret body
       | None => Throw (Error "socket hang up")
       end;
     http_ms := fun _ => 120%N;
     timer_late := fun _ => 0%N;
     readFile := fun path => Ret ("contents of " +:+ path);
     fetch := fun url => Ret ("body of " +:+ url);
     fetch_ms := fun _ => 80%N;
     toBase64 := fun bytes => "base64:" +:+ bytes |}.

(** The same with replies that are strings, as the service sends them. *)
Definition scripted (replies : list string) : Env := answered (map Text replies).


Definition start : World :=
  {| clock := 1700000000000; requests := 0; timers := 0; trace := [] |}.

Definition default_client : TwoCaptchaClient :=
  {| key := str "0123456789abcdef0123456789abcdef";
     timeout := Num.of_Z 60000; polling := Num.of_Z 5000; throwErrors := false |}.

Definition throwing_client : TwoCaptchaClient :=
  {| key := str "0123456789abcdef0123456789abcdef";
     timeout := Num.of_Z 60000; polling := Num.of_Z 5000; throwErrors := true |}.


Definition timeless_client : TwoCaptchaClient :=
  {| key := str "0123456789abcdef0123456789abcdef";
     timeout := Num.nan; polling := Num.of_Z 5000; throwErrors := false |}.

Definition image : image_options :=
  {| o_base64 := Some "iVBORw0KGgo="; o_buffer := None; o_path := None; o_url := None |}.

Definition url_image : image_options :=
  {| o_base64 := None; o_buffer := None; o_path := None;
     o_url := Some "https://example.org/c.png" |}.

(** ** The notions of the description

    What the accessors, the validation of replies and the polling loops are
    described to do, in terms of the text and of the events, next to the
    code above that does it. *)
Module Spec.

Fixpoint all_digits (s : string) : bool :=
  match s with
  | EmptyString => true
  | String c s' => JS.is_digit c && all_digits s'
  end.

Fixpoint has_digit (s : string) : bool :=
  match s with
  | EmptyString => false
  | String c s' => JS.is_digit c || has_digit s'
  end.

Definition starts_with_digit (s : string) : bool :=
  match s with
  | EmptyString => false
  | String c _ => JS.is_digit c
  end.

(** [digit_runs s l]: [l] lists the maximal runs of decimal digits of [s]
    from left to right.  A run is preceded by text without digits and is
    followed by the end of the text or by a character that is no digit. *)
Inductive digit_runs : string -> list string -> Prop :=
| runs_none s :
    has_digit s = false -> digit_runs s []
| runs_next pre d post l :
    has_digit pre = false ->
    d <> EmptyString -> all_digits d = true ->
    starts_with_digit post = false ->
    digit_runs post l ->
    digit_runs (pre +:+ d +:+ post) (d :: l).

(** The same list, computed: [cur] is the run being read. *)
Fixpoint runs_from (cur s : string) : list string :=
  match s with
  | EmptyString => match cur with EmptyString => [] | _ => [cur] end
  | String c s' =>
      if JS.is_digit c then runs_from (cur +:+ String c EmptyString) s'
      else match cur with
           | EmptyString => runs_from EmptyString s'
           | _ => cur :: runs_from EmptyString s'
           end
  end.

Definition runs (s : string) : list string := runs_from EmptyString s.

(** Removing [p] where it is a leading prefix of the text. *)
Definition without_prefix (p s : string) : string :=
  if JS.startsWith p s then JS.drop (String.length p) s else s.

(** [without_first p s t]: [t] is [s] without its first occurrence of [p],
    and [s] itself when [p] does not occur. *)
Inductive without_first (p : string) : string -> string -> Prop :=
| first_absent s :
    JS.includes p s = false -> without_first p s s
| first_present a b :
    (forall a' b', a +:+ p +:+ b = a' +:+ p +:+ b' ->
                   (String.length a <= String.length a')%nat) ->
    without_first p (a +:+ p +:+ b) (a +:+ b).

(** The longest run of digits at the head of a text, and what follows it. *)
Fixpoint take_digits (s : string) : string :=
  match s with
  | String c s' => if JS.is_digit c then String c (take_digits s') else EmptyString
  | EmptyString => EmptyString
  end.

Fixpoint drop_digits (s : string) : string :=
  match s with
  | String c s' => if JS.is_digit c then drop_digits s' else s
  | EmptyString => EmptyString
  end.

(** [xy_at s]: the text [s] begins with [x=<digits>,y=<digits>]; the two
    digit groups, as long as they can be, and the text after them. *)
Definition xy_at (s : string) : option (string * string * string) :=
  if JS.startsWith "x=" s then
    let dx := take_digits (JS.drop 2 s) in
    let after_x := drop_digits (JS.drop 2 s) in
    match dx with
    | EmptyString => None
    | _ =>
        if JS.startsWith ",y=" after_x then
          let dy := take_digits (JS.drop 3 after_x) in
          match dy with
          | EmptyString => None
          | _ => Some (dx, dy, drop_digits (JS.drop 3 after_x))
          end
        else None
    end
  else None.

(** The occurrences of [x=<digits>,y=<digits>] in a text, position by
    position from left to right. *)
Fixpoint xy_occurrences (s : string) : list (string * string) :=
  match xy_at s with
  | Some (dx, dy, _) => [(dx, dy)]
  | None => []
  end ++
  match s with
  | EmptyString => []
  | String _ s' => xy_occurrences s'
  end.

(** A run as a list: no run when it is empty. *)
Definition singleton_run (s : string) : list string :=
  match s with
  | EmptyString => []
  | _ => [s]
  end.

(** The text of an occurrence with the digit groups [o]. *)
Definition xy_text (o : string * string) : string :=
  "x=" +:+ fst o +:+ ",y=" +:+ snd o.

(** The letter [x] does not occur in [s]. *)
Definition no_x (s : string) : Prop :=
  forall a b, s <> a +:+ String "x" b.

(** The integer a string of decimal digits denotes, by position. *)
Fixpoint decimal_value (s : string) : Z :=
  match s with
  | EmptyString => 0
  | String c s' =>
      JS.digit_value c * 10 ^ Z.of_nat (String.length s') + decimal_value s'
  end.

(** A computation keeps the relation [R] between the world it starts in
    and the world it ends in. *)
Definition keeps {A : Type} (R : World -> World -> Prop) (m : M A) : Prop :=
  forall w o w', m w = (o, w') -> R w w'.

(** Time does not run backwards. *)
Definition later (w w' : World) : Prop := clock w <= clock w'.






(** The two ways a polling loop is described to end once it has slept: a
    lookup brings a captcha whose text is no longer [''], which is returned
    at once, or the deadline has passed when the clock is read. *)
Inductive poll_ends_described (errors : gmap string string) (env : Env)
    (this : TwoCaptchaClient) (startedAt : Z) : outcome Captcha -> World -> Prop :=
| ends_answered id w0 c w' :
    captcha errors env this id w0 = (Ret c, w') ->
    is_empty_string (_text c) = false ->
    poll_ends_described errors env this startedAt (Ret c) w'
| ends_timeout_thrown w0 :
    Num.int_gt (clock w0 - startedAt) (timeout this) = true ->
    throwErrors this = true ->
    poll_ends_described errors env this startedAt
      (Throw (Error "Captcha timeout")) w0
| ends_timeout_logged c w0 :
    is_empty_string (_text c) = true ->
    Num.int_gt (clock w0 - startedAt) (timeout this) = true ->
    throwErrors this = false ->
    poll_ends_described errors env this startedAt
      (Ret c) (log (EvWarn "Captcha timeout") w0).

(** The world a turn of a loop checks the deadline in: the timer has fired
    and the clock has been read. *)
Definition awake (env : Env) (interval : Num.t) (w : World) : World :=
  log EvNow (snd (_sleep env interval w)).

(** The run of a polling loop from the captcha [c] it holds in the world
    [w].  A captcha whose text is not [''] is returned as it is, at once.
    Otherwise the loop sleeps and reads the clock: past the deadline it
    gives up on the captcha it holds, and else it looks the captcha up,
    ends with the exception of a lookup that throws, and goes on with the
    captcha of a lookup that returns. *)
Inductive poll_run (errors : gmap string string) (env : Env)
    (this : TwoCaptchaClient) (interval : Num.t) (startedAt : Z)
    : Captcha -> World -> outcome Captcha -> World -> Prop :=
| run_answered c w :
    is_empty_string (_text c) = false ->
    poll_run errors env this interval startedAt c w (Ret c) w
| run_timeout_thrown c w :
    is_empty_string (_text c) = true ->
    Num.int_gt (clock (awake env interval w) - startedAt) (timeout this) = true ->
    throwErrors this = true ->
    poll_run errors env this interval startedAt c w
      (Throw (Error "Captcha timeout")) (awake env interval w)
| run_timeout_logged c w :
    is_empty_string (_text c) = true ->
    Num.int_gt (clock (awake env interval w) - startedAt) (timeout this) = true ->
    throwErrors this = false ->
    poll_run errors env this interval startedAt c w
      (Ret c) (log (EvWarn "Captcha timeout") (awake env interval w))
| run_lookup_threw c w e w2 :
    is_empty_string (_text c) = true ->
    Num.int_gt (clock (awake env interval w) - startedAt) (timeout this) = false ->
    captcha errors env this (_id c) (awake env interval w) = (Throw e, w2) ->
    poll_run errors env this interval startedAt c w (Throw e) w2
| run_lookup c w c' w2 o w' :
    is_empty_string (_text c) = true ->
    Num.int_gt (clock (awake env interval w) - startedAt) (timeout this) = false ->
    captcha errors env this (_id c) (awake env interval w) = (Ret c', w2) ->
    poll_run errors env this interval startedAt c' w2 o w' ->
    poll_run errors env this interval startedAt c w o w'.

(** The whole milliseconds of a deadline, and the turns the time left
    before it allows. *)
Definition deadline (this : TwoCaptchaClient) : Z :=
  match timeout this with
  | Num.fin q => Qfloor q
  | _ => 0
  end.

Definition turns_left (this : TwoCaptchaClient) (startedAt : Z) (w : World) : nat :=
  Z.to_nat (deadline this + 1 - (clock w - startedAt)).

(** All the fields of a reply between ["|"], and the second of them. *)
Definition fields (res : string) : list string := JS.pieces "|" "" res.

Definition second_field (res : string) : value := JS.at_index (fields res) 1.

(** What [_throwError] does with a message under each mode, the one
    message it passes over apart. *)
Definition surfaced (this : TwoCaptchaClient) (message : string) (w : World)
    : outcome bool * World :=
  if throwErrors this then (Throw (Error message), w)
  else (Ret false, log (EvWarn message) w).

(** A call that surfaces [message] by the mode: the message is thrown and
    nothing else of the call happens, or it is logged and the call goes on
    with [rest]. *)
Definition surfaced_then {A : Type} (this : TwoCaptchaClient) (message : string)
    (rest : M A) (w : World) : outcome A * World :=
  if throwErrors this then (Throw (Error message), w)
  else rest (log (EvWarn message) w).

(** The same for a decoding method, whose result is the one of its loop. *)
Definition surfaced_call (this : TwoCaptchaClient) (message : string)
    (rest : World -> option (outcome Captcha * World)) (w : World)
    : option (outcome Captcha * World) :=
  if throwErrors this then Some (Throw (Error message), w)
  else rest (log (EvWarn message) w).

(** What a decoding method still does before its loop once a check is
    done: the upload; the loading of the image and the upload; the check of
    the URL of the page and the upload. *)
Definition upload_from (errors : gmap string string) (env : Env)
    (this : TwoCaptchaClient) (startedAt : Z) : M (Z * Captcha) :=
  let! decodedCaptcha := _upload errors env this in
  ret (startedAt, decodedCaptcha).

Definition load_and_upload (errors : gmap string string) (env : Env)
    (this : TwoCaptchaClient) (options : image_options) (startedAt : Z)
    : M (Z * Captcha) :=
  do! _loadCaptcha env this options in
  upload_from errors env this startedAt.

Definition check_pageurl_and_upload (errors : gmap string string) (env : Env)
    (this : TwoCaptchaClient) (options : site_options) (startedAt : Z)
    : M (Z * Captcha) :=
  do! (if falsy (o_pageurl options)
       then _throwError this "Missing pageurl parameter" else ret false) in
  upload_from errors env this startedAt.

(** The options name no image: no buffer, and the strings missing or empty. *)
Definition no_source (options : image_options) : Prop :=
  falsy (o_base64 options) = true /\ o_buffer options = None /\
  falsy (o_path options) = true /\ falsy (o_url options) = true.

(** A reply the table gives no message for; an empty message counts as none. *)
Definition unmatched (errors : gmap string string) (body : string) : Prop :=
  errors !! body = None \/ errors !! body = Some "".

(** The replies [_validateResponse] accepts. *)
Definition accepted (errors : gmap string string) (body : string) : Prop :=
  unmatched errors body /\ body <> "" /\ JS.includes "ERROR" body = false.

(** The message for a reply that is not accepted. *)
Definition rejection (errors : gmap string string) (body message : string) : Prop :=
  (errors !! body = Some message /\ message <> "") \/
  (unmatched errors body /\ message = "Unknown 2Captcha error: " +:+ body).

(** The description of [_validateResponse]: a reply is accepted exactly
    when it is no key of the table, not empty and without ["ERROR"], and a
    reply that is not accepted has its message surfaced by the mode. *)
Definition validate_as_described (errors : gmap string string)
    (this : TwoCaptchaClient) (body : string) (w : World) : Prop :=
  (fst (_validateResponse errors this (Text body) w) = Ret true <->
   errors !! body = None /\ body <> "" /\ JS.includes "ERROR" body = false) /\
  (fst (_validateResponse errors this (Text body) w) <> Ret true ->
   exists message,
     (errors !! body = Some message \/
      message = "Unknown 2Captcha error: " +:+ body) /\
     _validateResponse errors this (Text body) w = surfaced this message w).

(** The messages of the error conditions the client detects. *)
Inductive error_condition (errors : gmap string string) : string -> Prop :=
| key_not_a_string : error_condition errors "2Captcha key must be a string"
| missing_googlekey : error_condition errors "Missing googlekey parameter"
| missing_sitekey : error_condition errors "Missing sitekey parameter"
| missing_pageurl : error_condition errors "Missing pageurl parameter"
| no_image_data : error_condition errors "No image data received"
| captcha_timeout : error_condition errors "Captcha timeout"
| invalid_body body message :
    rejection errors body message -> error_condition errors message.

(** The description of [indexes] with the prefix read as a leading one. *)
Definition indexes_of_leading_prefix (text : string) : Prop :=
  exists l, digit_runs (without_prefix "click:" text) l /\
            indexes (mkCaptcha (str "") (str text) "") = Ret (map JS.Number l).

End Spec.

(** ** The forms the client sends

    The objects built for the requests: [_upload] assembles the fields of
    the upload from its options, the three site-key methods build those
    options, and [_request] adds the key.  An object is the finite map of
    its own properties; which of them hold [undefined] matters to the
    spread syntax, so the values keep it. *)
Inductive jsval :=
| JUndefined
| JNull
| JBool (b : bool)
| JNum (z : Z)
| JStr (s : string)
| JBuffer (bytes : string).

Module Form.

(** [o[k]]: a property the object does not have reads as [undefined]. *)
Definition prop (o : gmap string jsval) (k : string) : jsval :=
  default JUndefined (o !! k).

(** [v != null] *)
Definition not_nullish (v : jsval) : bool :=
  match v with
  | JUndefined | JNull => false
  | _ => true
  end.

(** [v !== ''] *)
Definition not_empty_string (v : jsval) : bool :=
  match v with
  | JStr EmptyString => false
  | _ => true
  end.

Definition of_value (v : value) : jsval :=
  match v with
  | undefined => JUndefined
  | str s => JStr s
  end.

Definition of_option (s : option string) : jsval :=
  match s with
  | Some s => JStr s
  | None => JUndefined
  end.

(** The object [args] that [_upload] passes to [_request].  In
    [{ ...args, ...restOptions }] the properties of [restOptions] win. *)
Definition upload_args (options : gmap string jsval) : gmap string jsval :=
  let args : gmap string jsval := ∅ in
  let base64 := prop options "base64" in
  let args :=
    if not_nullish base64 && not_empty_string base64
    then <["body" := base64]> args else args in
  let args :=
    <["method" := if not_nullish (prop options "method")
                  then prop options "method" else JStr "base64"]> args in
  let restOptions := delete "buffer" options in
  let args := restOptions ∪ args in
  let args := delete "base64" args in
  let args := delete "buffer" args in
  let args := delete "path" args in
  let args := delete "url" args in
  args.

(** [{ ...options, base64 }], the options [decode] uploads with. *)
Definition decode_options (options : gmap string jsval) (base64 : string)
    : gmap string jsval :=
  <["base64" := JStr base64]> options.

(** [{ ...payload, key: this.key, soft_id: 2386 }] *)
Definition request_payload (this : TwoCaptchaClient) (payload : gmap string jsval)
    : gmap string jsval :=
  <["soft_id" := JNum 2386]> (<["key" := of_value (key this)]> payload).

(** [(b ?? false) ? 1 : 0] *)
Definition flag (b : option bool) : jsval :=
  JNum (if default false b then 1 else 0).

(** [uploadOptions] of [decodeRecaptchaV2], [decodeRecaptchaV3] and
    [decodeHCaptcha]. *)
Definition recaptchaV2_options (options : site_options)
    (invisible enterprise : option bool) : gmap string jsval :=
  {[ "method" := JStr "userrecaptcha";
     "googlekey" := of_option (o_sitekey options);
     "pageurl" := of_option (o_pageurl options);
     "invisible" := flag invisible;
     "enterprise" := flag enterprise ]}.

Definition recaptchaV3_options (options : site_options)
    (action : option string) (enterprise : option bool) : gmap string jsval :=
  {[ "method" := JStr "userrecaptcha";
     "googlekey" := of_option (o_sitekey options);
     "pageurl" := of_option (o_pageurl options);
     "version" := JStr "v3";
     "action" := JStr (default "" action);
     "enterprise" := flag enterprise ]}.

Definition hcaptcha_options (options : site_options)
    (invisible : option bool) : gmap string jsval :=
  {[ "method" := JStr "hcaptcha";
     "sitekey" := of_option (o_sitekey options);
     "pageurl" := of_option (o_pageurl options);
     "invisible" := flag invisible ]}.

End Form.

(** ** [report] *)
Section Reporting.

Variable errors : gmap string string.
Variable env : Env.
Variable this : TwoCaptchaClient.

(** The payload carries the id and [reportbad] or [reportgood]; the verdict
    is read off the reply alone. *)
Definition report (captchaId : value) (bad : bool) : M bool :=
  let! res := _request errors env this "res" "get" in
  ret (JS.strict_equal res "OK_REPORT_RECORDED").

End Reporting.

(** ** Notions for the further properties *)
Module Props.

(** The service answers every request with a body that reaches the client
    as a string, and every file and URL can be read. *)
Definition answering (env : Env) : Prop :=
  forall n, exists body, http env n = Ret (Text body).

Definition readable (env : Env) : Prop :=
  (forall path, exists bytes, readFile env path = Ret bytes) /\
  (forall url, exists bytes, fetch env url = Ret bytes).

(** A computation that returns in every world. *)
Definition returns {A : Type} (m : M A) : Prop :=
  forall w, exists a w', m w = (Ret a, w').

(** A non-empty run of decimal digits, and a pair of them. *)
Definition digit_group (d : string) : Prop :=
  d <> "" /\ Spec.all_digits d = true.

Definition digit_pair (o : string * string) : Prop :=
  digit_group (fst o) /\ digit_group (snd o).

(** A pair of numbers, as [coordinateParser] builds it from a match. *)
Definition number_pair (p : list number) : Prop :=
  exists x y, p = [x; y] /\ x <> NaN /\ y <> NaN.

(** The keys [_upload] deletes from its arguments. *)
Definition local_keys : list string := ["base64"; "buffer"; "path"; "url"].

(** The downloads a world has seen. *)
Definition is_download (e : event) : bool :=
  match e with
  | EvDownload _ => true
  | _ => false
  end.

Definition downloads (w : World) : nat := length (filter is_download (trace w)).

(** Requests, downloads and time are untouched by what only logs or throws;
    a request to the service counts one and takes some time. *)
Definition same_count (w w' : World) : Prop :=
  requests w' = requests w /\ clock w' = clock w /\ downloads w' = downloads w.

Definition one_more (w w' : World) : Prop :=
  requests w' = S (requests w) /\ clock w <= clock w' /\ downloads w' = downloads w.

(** Neither requests nor time go back. *)
Definition onward (w w' : World) : Prop :=
  (requests w <= requests w')%nat /\ clock w <= clock w'.

(** A download at most, no request to the service, and time does not go
    back. *)
Definition one_download (w w' : World) : Prop :=
  requests w' = requests w /\ clock w <= clock w' /\
  (downloads w' <= S (downloads w))%nat.

(** What the statements before a loop leave behind: the upload at most,
    [n] downloads at most, and the start time read first. *)
Definition counted (n : nat) (w : World) (o : outcome (Z * Captcha))
    (w1 : World) : Prop :=
  (requests w <= requests w1 <= S (requests w))%nat /\
  (downloads w1 <= downloads w + n)%nat /\
  forall s c, o = Ret (s, c) ->
    s = clock w /\ clock w <= clock w1 /\ requests w1 = S (requests w).

(** The most lookups a loop with this interval can make before the deadline. *)
Definition most_lookups (this : TwoCaptchaClient) (interval : Num.t) : nat :=
  Z.to_nat (Z.max 0 (Spec.deadline this) / timer_delay interval).

End Props.

(** A service that answers with [replies] in turn and with [last] ever
    after; requests take 120 ms and timers fire on time. *)
Definition steady (replies : list string) (last : string) : Env :=
  {| http := fun n => Ret (Text (default last (replies !! n)));
     http_ms := fun _ => 120%N;
     timer_late := fun _ => 0%N;
     readFile := fun path => Ret ("contents of " +:+ path);
     fetch := fun url => Ret ("body of " +:+ url);
     fetch_ms := fun _ => 80%N;
     toBase64 := fun bytes => "base64:" +:+ bytes |}.

(** ** Facts about strings *)
#[local] Arguments String.append !_ _ / : simpl nomatch.

Section Strings.

Lemma sapp_nil_r (s : string) : s +:+ "" = s.
Proof. induction s as [|c s IH]; simpl; [reflexivity | now rewrite IH]. Qed.

Lemma sapp_assoc (a b c : string) : (a +:+ b) +:+ c = a +:+ b +:+ c.
Proof. induction a as [|x a IH]; simpl; [reflexivity | now rewrite IH]. Qed.

Lemma app_snoc (a : string) (c : ascii) (b : string) :
  (a +:+ String c "") +:+ b = a +:+ String c b.
Proof. now rewrite sapp_assoc. Qed.

Lemma length_app (a b : string) :
  String.length (a +:+ b) = (String.length a + String.length b)%nat.
Proof. induction a as [|x a IH]; simpl; [reflexivity | now rewrite IH]. Qed.

Lemma startsWith_app (p s : string) : JS.startsWith p (p +:+ s) = true.
Proof.
  induction p as [|x p IH]; simpl; [reflexivity|].
  destruct (decide (x = x)); [exact IH | congruence].
Qed.

Lemma startsWith_split (p s : string) :
  JS.startsWith p s = true -> s = p +:+ JS.drop (String.length p) s.
Proof.
  revert s; induction p as [|x p IH]; intros s H; simpl.
  - now destruct s.
  - destruct s as [|c s]; simpl in H; [discriminate|].
    destruct (decide (x = c)) as [->|]; [|discriminate].
    simpl. f_equal. now apply IH.
Qed.

Lemma includes_unfold (p s : string) :
  JS.includes p s =
  JS.startsWith p s ||
  match s with EmptyString => false | String _ s' => JS.includes p s' end.
Proof. destruct s; reflexivity. Qed.

(** [replace] removes the first occurrence, and nothing when there is none. *)
Lemma replace_without_first (p s : string) :
  Spec.without_first p s (JS.replace p "" s).
Proof.
  induction s as [|c s IH].
  - simpl. destruct (JS.startsWith p "") eqn:E.
    + destruct p; [|discriminate]. simpl.
      apply (Spec.first_present "" "" ""). intros a' b' _. simpl. lia.
    + apply Spec.first_absent. simpl. now rewrite E.
  - simpl. destruct (JS.startsWith p (String c s)) eqn:E.
    + rewrite (startsWith_split _ _ E) at 1. simpl.
      apply (Spec.first_present p "" (JS.drop (String.length p) (String c s))).
      intros a' b' _. simpl. lia.
    + remember (JS.replace p "" s) as t eqn:Ht.
      destruct IH as [s Hno | a b Hmin].
      * apply Spec.first_absent. rewrite includes_unfold, E. exact Hno.
      * change (String c (a +:+ b)) with (String c a +:+ b).
        change (String c (a +:+ p +:+ b)) with (String c a +:+ p +:+ b).
        apply Spec.first_present. intros a' b' Heq.
        destruct a' as [|c' a'].
        -- simpl in Heq. rewrite Heq, startsWith_app in E. discriminate.
        -- simpl in Heq. injection Heq as -> Heq. simpl.
           specialize (Hmin _ _ Heq). lia.
Qed.

(** Where the pattern leads the text or does not occur, removing the first
    occurrence and removing a leading prefix agree. *)
Lemma replace_without_prefix (p s : string) :
  JS.startsWith p s = true \/ JS.includes p s = false ->
  JS.replace p "" s = Spec.without_prefix p s.
Proof.
  unfold Spec.without_prefix. intros [H | H].
  - rewrite H. destruct s; simpl; rewrite H; reflexivity.
  - assert (Hs : JS.startsWith p s = false).
    { rewrite includes_unfold in H. now apply orb_false_elim in H. }
    rewrite Hs. clear Hs. induction s as [|c s IH]; simpl.
    + rewrite includes_unfold in H. apply orb_false_elim in H as [-> _]. reflexivity.
    + rewrite includes_unfold in H. apply orb_false_elim in H as [-> H].
      now rewrite IH.
Qed.

End Strings.

(** ** Facts about digit runs *)
Section Digits.

Lemma take_drop_digits (s : string) :
  Spec.take_digits s +:+ Spec.drop_digits s = s.
Proof.
  induction s as [|c s IH]; simpl; [reflexivity|].
  destruct (JS.is_digit c); simpl; [now rewrite IH | reflexivity].
Qed.

Lemma all_digits_take (s : string) : Spec.all_digits (Spec.take_digits s) = true.
Proof.
  induction s as [|c s IH]; simpl; [reflexivity|].
  destruct (JS.is_digit c) eqn:E; simpl; [now rewrite E | reflexivity].
Qed.

Lemma starts_drop_digits (s : string) :
  Spec.starts_with_digit (Spec.drop_digits s) = false.
Proof.
  induction s as [|c s IH]; simpl; [reflexivity|].
  destruct (JS.is_digit c) eqn:E; simpl; [exact IH | exact E].
Qed.

Lemma length_drop_digits (s : string) :
  (String.length (Spec.drop_digits s) <= String.length s)%nat.
Proof.
  induction s as [|c s IH]; simpl; [lia|].
  destruct (JS.is_digit c); simpl; lia.
Qed.

Lemma take_digits_app (d post : string) :
  Spec.all_digits d = true -> Spec.starts_with_digit post = false ->
  Spec.take_digits (d +:+ post) = d.
Proof.
  intros Hd Hp. induction d as [|c d IH]; simpl in *.
  - destruct post as [|c post]; simpl in *; [reflexivity | now rewrite Hp].
  - apply andb_prop in Hd as [-> Hd]. now rewrite IH.
Qed.

Lemma drop_digits_app (d post : string) :
  Spec.all_digits d = true -> Spec.starts_with_digit post = false ->
  Spec.drop_digits (d +:+ post) = post.
Proof.
  intros Hd Hp. induction d as [|c d IH]; simpl in *.
  - destruct post as [|c post]; simpl in *; [reflexivity | now rewrite Hp].
  - apply andb_prop in Hd as [-> Hd]. now apply IH.
Qed.

Lemma runs_from_span (cur s : string) :
  Spec.runs_from cur s =
  Spec.singleton_run (cur +:+ Spec.take_digits s) ++ Spec.runs (Spec.drop_digits s).
Proof.
  revert cur; induction s as [|c s IH]; intros cur; simpl.
  - rewrite sapp_nil_r. destruct cur; reflexivity.
  - destruct (JS.is_digit c) eqn:E.
    + now rewrite IH, app_snoc.
    + rewrite sapp_nil_r. unfold Spec.runs. simpl. rewrite E.
      destruct cur; reflexivity.
Qed.

Lemma runs_no_digit (s : string) : Spec.has_digit s = false -> Spec.runs s = [].
Proof.
  unfold Spec.runs. induction s as [|c s IH]; simpl; [reflexivity|].
  intros H. apply orb_false_elim in H as [-> H]. now apply IH.
Qed.

Lemma runs_skip_prefix (pre t : string) :
  Spec.has_digit pre = false -> Spec.runs (pre +:+ t) = Spec.runs t.
Proof.
  unfold Spec.runs. induction pre as [|c pre IH]; simpl; [reflexivity|].
  intros H. apply orb_false_elim in H as [-> H]. now apply IH.
Qed.

Lemma runs_cons (d post : string) :
  d <> "" -> Spec.all_digits d = true -> Spec.starts_with_digit post = false ->
  Spec.runs (d +:+ post) = d :: Spec.runs post.
Proof.
  intros Hne Hd Hp. unfold Spec.runs at 1.
  rewrite runs_from_span, take_digits_app, drop_digits_app by assumption.
  simpl. destruct d; [congruence | reflexivity].
Qed.

(** The relation determines the list, which is the computed one. *)
Lemma digit_runs_unique (s : string) (l : list string) :
  Spec.digit_runs s l -> l = Spec.runs s.
Proof.
  induction 1 as [s H | pre d post l Hpre Hne Hd Hpost _ IH].
  - now rewrite runs_no_digit.
  - now rewrite runs_skip_prefix, runs_cons, IH.
Qed.

Lemma digit_runs_skip (c : ascii) (s : string) (l : list string) :
  JS.is_digit c = false -> Spec.digit_runs s l -> Spec.digit_runs (String c s) l.
Proof.
  intros Hc H. destruct H as [s H | pre d post l Hpre Hne Hd Hpost Hl].
  - apply Spec.runs_none. simpl. now rewrite Hc.
  - change (String c (pre +:+ d +:+ post)) with (String c pre +:+ d +:+ post).
    apply Spec.runs_next; try assumption. simpl. now rewrite Hc.
Qed.

Lemma digit_runs_runs (s : string) : Spec.digit_runs s (Spec.runs s).
Proof.
  remember (String.length s) as n eqn:Hn.
  assert (Hle : (String.length s <= n)%nat) by lia. clear Hn.
  revert s Hle; induction n as [|n IH]; intros s Hle.
  - destruct s; [|simpl in Hle; lia]. now apply Spec.runs_none.
  - destruct s as [|c s]; [now apply Spec.runs_none|].
    simpl in Hle. destruct (JS.is_digit c) eqn:E.
    + pose proof (length_drop_digits s) as Hlen.
      assert (Hd : Spec.all_digits (String c (Spec.take_digits s)) = true).
      { simpl. now rewrite E, all_digits_take. }
      rewrite <- (take_drop_digits s) at 1.
      change (String c (Spec.take_digits s +:+ Spec.drop_digits s))
        with ("" +:+ String c (Spec.take_digits s) +:+ Spec.drop_digits s).
      replace (Spec.runs (String c s))
        with (String c (Spec.take_digits s) :: Spec.runs (Spec.drop_digits s)).
      * apply Spec.runs_next; try easy.
        -- apply starts_drop_digits.
        -- apply IH. lia.
      * rewrite <- (take_drop_digits s) at 3.
        change (String c (Spec.take_digits s +:+ Spec.drop_digits s))
          with (String c (Spec.take_digits s) +:+ Spec.drop_digits s).
        rewrite runs_cons; auto using starts_drop_digits.
    + replace (Spec.runs (String c s)) with (Spec.runs s).
      * apply digit_runs_skip; [exact E | apply IH; lia].
      * unfold Spec.runs. simpl. now rewrite E.
Qed.

End Digits.

(** ** Facts about the matcher *)
Section Matcher.

Import RegExp.

(** A repetition whose continuation accepts the longest run stops there. *)
Lemma greedy_longest (k : string -> string -> option hit) (run s : string) (h : hit) :
  k (run +:+ Spec.take_digits s) (Spec.drop_digits s) = Some h ->
  greedy JS.is_digit k run s = Some h.
Proof.
  revert run; induction s as [|c s IH]; intros run; simpl.
  - now rewrite sapp_nil_r.
  - destruct (JS.is_digit c).
    + rewrite <- app_snoc. intros H. now rewrite (IH _ H).
    + now rewrite sapp_nil_r.
Qed.

(** Giving characters back does not help a continuation that rejects every
    text starting with a digit: only the longest run is ever accepted. *)
Lemma greedy_no_backtrack (k : string -> string -> option hit) (run s : string) :
  (forall run' r, Spec.starts_with_digit r = true -> k run' r = None) ->
  greedy JS.is_digit k run s = k (run +:+ Spec.take_digits s) (Spec.drop_digits s).
Proof.
  intros Hk. revert run; induction s as [|c s IH]; intros run; simpl.
  - now rewrite sapp_nil_r.
  - destruct (JS.is_digit c) eqn:E.
    + rewrite IH, app_snoc.
      destruct (k (run +:+ String c (Spec.take_digits s)) (Spec.drop_digits s)) eqn:Ek;
        [reflexivity|].
      apply Hk. exact E.
    + now rewrite sapp_nil_r.
Qed.

Lemma match_here_digits (s : string) :
  match_here digits_re s =
  match Spec.take_digits s with
  | EmptyString => None
  | d => Some (d, [], Spec.drop_digits s)
  end.
Proof.
  destruct s as [|c s]; simpl; [reflexivity|].
  destruct (JS.is_digit c); [|reflexivity].
  apply greedy_longest. simpl. now rewrite sapp_nil_r.
Qed.

Lemma match_all_skip_digits (re : regex) (s : string) :
  match_all re (String.length (Spec.take_digits s)) s
  = match_all re 0 (Spec.drop_digits s).
Proof.
  induction s as [|c s IH]; simpl; [reflexivity|].
  destruct (JS.is_digit c); simpl; [exact IH | reflexivity].
Qed.

(** The global match of [\d+] lists the maximal digit runs. *)
Lemma match_all_digits (s : string) : match_all digits_re 0 s = Spec.runs s.
Proof.
  remember (String.length s) as n eqn:Hn.
  assert (Hle : (String.length s <= n)%nat) by lia. clear Hn.
  revert s Hle; induction n as [|n IH]; intros s Hle.
  - destruct s; [reflexivity | simpl in Hle; lia].
  - destruct s as [|c s]; [reflexivity|].
    simpl in Hle. cbn [match_all]. rewrite match_here_digits.
    unfold Spec.runs. simpl. destruct (JS.is_digit c) eqn:E.
    + simpl. rewrite match_all_skip_digits, runs_from_span. simpl.
      f_equal. apply IH. pose proof (length_drop_digits s). lia.
    + apply IH. lia.
Qed.

End Matcher.

(** ** Facts about the coordinate pattern *)
Section Coordinates.

Import RegExp.

Lemma match_here_lit (c : ascii) (re : regex) (s : string) :
  match_here (Lit c :: re) s =
  match s with
  | String d s' =>
      if decide (c = d) then
        match match_here re s' with
        | Some (m, gs, r) => Some (String d m, gs, r)
        | None => None
        end
      else None
  | EmptyString => None
  end.
Proof. reflexivity. Qed.

Lemma match_here_plus_last (capturing : bool) (s : string) :
  match_here [Plus JS.is_digit capturing] s =
  match Spec.take_digits s with
  | EmptyString => None
  | d => Some (d, if capturing then [d] else [], Spec.drop_digits s)
  end.
Proof.
  destruct s as [|c s]; simpl; [reflexivity|].
  destruct (JS.is_digit c); [|reflexivity].
  apply greedy_longest. simpl. now rewrite sapp_nil_r.
Qed.

Lemma match_here_plus_lit (capturing : bool) (c : ascii) (re : regex) (s : string) :
  JS.is_digit c = false ->
  match_here (Plus JS.is_digit capturing :: Lit c :: re) s =
  match Spec.take_digits s with
  | EmptyString => None
  | d =>
      match match_here (Lit c :: re) (Spec.drop_digits s) with
      | Some (m, gs, r) => Some (d +:+ m, if capturing then d :: gs else gs, r)
      | None => None
      end
  end.
Proof.
  intros Hc. destruct s as [|c0 s]; [reflexivity|].
  cbn [match_here Spec.take_digits Spec.drop_digits].
  destruct (JS.is_digit c0); [|reflexivity].
  rewrite greedy_no_backtrack.
  - reflexivity.
  - intros run' [|d r] Hd; [discriminate|]. simpl in Hd.
    destruct (decide (c = d)) as [->|]; [congruence | reflexivity].
Qed.

Lemma match_here_xy (s : string) :
  match_here xy_re s =
  match Spec.xy_at s with
  | Some (dx, dy, r) => Some ("x=" +:+ dx +:+ ",y=" +:+ dy, [dx; dy], r)
  | None => None
  end.
Proof.
  unfold xy_re, Spec.xy_at.
  rewrite match_here_lit.
  destruct s as [|c0 s]; [reflexivity|]. cbn [JS.startsWith].
  destruct (decide ("x"%char = c0)) as [<-|]; [|reflexivity].
  rewrite match_here_lit.
  destruct s as [|c1 s]; [reflexivity|]. cbn [JS.startsWith JS.drop].
  destruct (decide ("="%char = c1)) as [<-|]; [|reflexivity].
  rewrite match_here_plus_lit by reflexivity.
  destruct (Spec.take_digits s) as [|x dx] eqn:Ex; [reflexivity|].
  rewrite match_here_lit.
  destruct (Spec.drop_digits s) as [|c2 r] eqn:Er; [reflexivity|].
  cbn [JS.startsWith].
  destruct (decide (","%char = c2)) as [<-|]; [|reflexivity].
  rewrite match_here_lit.
  destruct r as [|c3 r]; [reflexivity|]. cbn [JS.startsWith].
  destruct (decide ("y"%char = c3)) as [<-|]; [|reflexivity].
  rewrite match_here_lit.
  destruct r as [|c4 r]; [reflexivity|]. cbn [JS.startsWith JS.drop].
  destruct (decide ("="%char = c4)) as [<-|]; [|reflexivity].
  rewrite match_here_plus_last.
  destruct (Spec.take_digits r) as [|y dy] eqn:Ey; [reflexivity|].
  reflexivity.
Qed.

(** [xy_at] reads exactly the texts of the form [x=<digits>,y=<digits>],
    with both digit groups non-empty and the second as long as it can be. *)
Lemma xy_at_form (s dx dy r : string) :
  Spec.xy_at s = Some (dx, dy, r) <->
  s = "x=" +:+ dx +:+ ",y=" +:+ dy +:+ r /\
  dx <> "" /\ Spec.all_digits dx = true /\
  dy <> "" /\ Spec.all_digits dy = true /\
  Spec.starts_with_digit r = false.
Proof.
  unfold Spec.xy_at. split.
  - destruct (JS.startsWith "x=" s) eqn:E1; [|discriminate].
    apply startsWith_split in E1. cbn [String.length] in E1.
    remember (JS.drop 2 s) as s1 eqn:Hs1.
    pose proof (take_drop_digits s1) as H1.
    pose proof (all_digits_take s1) as D1.
    destruct (Spec.take_digits s1) as [|x tx] eqn:Ex; [discriminate|].
    destruct (JS.startsWith ",y=" (Spec.drop_digits s1)) eqn:E2; [|discriminate].
    apply startsWith_split in E2. cbn [String.length] in E2.
    remember (JS.drop 3 (Spec.drop_digits s1)) as s2 eqn:Hs2.
    pose proof (take_drop_digits s2) as H2.
    pose proof (all_digits_take s2) as D2.
    pose proof (starts_drop_digits s2) as R2.
    destruct (Spec.take_digits s2) as [|y ty] eqn:Ey; [discriminate|].
    intros [= <- <- <-].
    repeat split; try assumption; try discriminate.
    rewrite E1 at 1. rewrite <- H1 at 1. rewrite E2 at 1. rewrite <- H2 at 1.
    reflexivity.
  - intros (-> & Nx & Dx & Ny & Dy & Hr).
    rewrite startsWith_app.
    replace (JS.drop 2 ("x=" +:+ dx +:+ ",y=" +:+ dy +:+ r))
      with (dx +:+ ",y=" +:+ dy +:+ r) by reflexivity.
    rewrite take_digits_app, drop_digits_app by easy.
    destruct dx as [|x tx]; [congruence|].
    rewrite startsWith_app.
    replace (JS.drop 3 (",y=" +:+ dy +:+ r)) with (dy +:+ r) by reflexivity.
    rewrite take_digits_app, drop_digits_app by easy.
    destruct dy as [|y ty]; [congruence | reflexivity].
Qed.

Lemma no_x_nil : Spec.no_x "".
Proof. intros [|c a] b; discriminate. Qed.

Lemma no_x_digits (d : string) : Spec.all_digits d = true -> Spec.no_x d.
Proof.
  induction d as [|c d IH]; intros Hd a b Heq.
  - destruct a; discriminate.
  - simpl in Hd. apply andb_prop in Hd as [Hc Hd].
    destruct a as [|c' a]; simpl in Heq; injection Heq as -> Heq.
    + discriminate.
    + exact (IH Hd _ _ Heq).
Qed.

Lemma no_x_cons (c : ascii) (s : string) : c <> "x"%char -> Spec.no_x s -> Spec.no_x (String c s).
Proof.
  intros Hc Hs a b Heq. destruct a as [|c' a]; simpl in Heq; injection Heq as -> Heq.
  - congruence.
  - exact (Hs _ _ Heq).
Qed.

Lemma no_x_app (u v : string) : Spec.no_x u -> Spec.no_x v -> Spec.no_x (u +:+ v).
Proof.
  induction u as [|c u IH]; intros Hu Hv; simpl; [exact Hv|].
  apply no_x_cons.
  - intros ->. exact (Hu "" u eq_refl).
  - apply IH; [|exact Hv]. intros a b ->. exact (Hu (String c a) b eq_refl).
Qed.

Lemma xy_occurrences_skip (u r : string) :
  Spec.no_x u -> Spec.xy_occurrences (u +:+ r) = Spec.xy_occurrences r.
Proof.
  induction u as [|c u IH]; intros Hu; [reflexivity|].
  cbn [String.append Spec.xy_occurrences]. rewrite IH.
  - unfold Spec.xy_at. cbn [JS.startsWith].
    destruct (decide ("x"%char = c)) as [<-|]; [|reflexivity].
    destruct (Hu "" u eq_refl).
  - intros a b ->. exact (Hu (String c a) b eq_refl).
Qed.

Lemma match_all_skip (re : regex) (u r : string) :
  match_all re (String.length u) (u +:+ r) = match_all re 0 r.
Proof. induction u as [|c u IH]; simpl; [reflexivity | exact IH]. Qed.

(** The global match of the coordinate pattern finds every occurrence. *)
Lemma match_all_xy (s : string) :
  match_all xy_re 0 s = map Spec.xy_text (Spec.xy_occurrences s).
Proof.
  remember (String.length s) as n eqn:Hn.
  assert (Hle : (String.length s <= n)%nat) by lia. clear Hn.
  revert s Hle; induction n as [|n IH]; intros s Hle.
  - destruct s; [reflexivity | simpl in Hle; lia].
  - destruct s as [|c s]; [reflexivity|].
    simpl in Hle. cbn [match_all Spec.xy_occurrences]. rewrite match_here_xy.
    destruct (Spec.xy_at (String c s)) as [[[dx dy] r]|] eqn:E.
    + apply xy_at_form in E as (Hs & Nx & Dx & Ny & Dy & Hr).
      injection Hs as -> ->.
      assert (Hu : String "=" (dx +:+ String "," (String "y" (String "=" (dy +:+ r))))
                   = ("=" +:+ dx +:+ ",y=" +:+ dy) +:+ r)
        by (cbn; rewrite !sapp_assoc; reflexivity).
      rewrite Hu in *.
      replace (Init.Nat.pred (String.length ("x=" +:+ dx +:+ ",y=" +:+ dy)))
        with (String.length ("=" +:+ dx +:+ ",y=" +:+ dy)) by reflexivity.
      rewrite match_all_skip, xy_occurrences_skip.
      * cbn [app map]. f_equal. apply IH.
        rewrite length_app in Hle. lia.
      * apply (no_x_app "="); [apply no_x_cons; [discriminate | exact no_x_nil]|].
        apply no_x_app; [now apply no_x_digits|].
        apply (no_x_app ",y="); [|now apply no_x_digits].
        repeat (apply no_x_cons; [discriminate|]). exact no_x_nil.
    + cbn [app]. apply IH. lia.
Qed.

Lemma xy_occurrences_digits (s : string) :
  Forall (fun o => Spec.xy_at (Spec.xy_text o) = Some (fst o, snd o, ""))
         (Spec.xy_occurrences s).
Proof.
  induction s as [|c s IH]; cbn [Spec.xy_occurrences].
  - unfold Spec.xy_at. simpl. constructor.
  - destruct (Spec.xy_at (String c s)) as [[[dx dy] r]|] eqn:E; [|exact IH].
    constructor; [|exact IH].
    apply xy_at_form in E as (_ & Nx & Dx & Ny & Dy & _).
    apply xy_at_form. unfold Spec.xy_text. cbn [fst snd].
    rewrite sapp_nil_r. easy.
Qed.

Lemma exec_unfold (re : regex) (s : string) :
  exec re s =
  match match_here re s with
  | Some (m, gs, _) => Some (m :: gs)
  | None =>
      match s with
      | String _ s' => exec re s'
      | EmptyString => None
      end
  end.
Proof. destruct s; reflexivity. Qed.

Lemma coordinateParser_occurrence (o : string * string) :
  Spec.xy_at (Spec.xy_text o) = Some (fst o, snd o, "") ->
  coordinateParser (Spec.xy_text o) = [JS.Number (fst o); JS.Number (snd o)].
Proof.
  intros H. unfold coordinateParser.
  now rewrite exec_unfold, match_here_xy, H.
Qed.

End Coordinates.

(** ** The accessors of [Captcha] *)
Section Accessors.

Lemma decimal_acc (s : string) (acc : Z) :
  Spec.all_digits s = true ->
  JS.decimal acc s
  = Some (acc * 10 ^ Z.of_nat (String.length s) + Spec.decimal_value s).
Proof.
  revert acc; induction s as [|c s IH]; intros acc Hd.
  - simpl. f_equal; lia.
  - simpl in Hd. apply andb_prop in Hd as [Hc Hd].
    cbn [JS.decimal Spec.decimal_value String.length]. rewrite Hc, (IH _ Hd).
    f_equal. rewrite Nat2Z.inj_succ, Z.pow_succ_r by lia. lia.
Qed.

(** Below 2^53 the conversion is exact. *)
Lemma Number_digits (d : string) :
  Spec.all_digits d = true -> Spec.decimal_value d < 2 ^ 53 ->
  JS.Number d = Int (Spec.decimal_value d).
Proof.
  intros Hd Hlt. unfold JS.Number. rewrite decimal_acc by exact Hd.
  replace (0 * 10 ^ Z.of_nat (String.length d) + Spec.decimal_value d)
    with (Spec.decimal_value d) by lia.
  unfold JS.to_double. now rewrite (proj2 (Z.ltb_lt _ _) Hlt).
Qed.

Lemma has_digit_drop (n : nat) (s : string) :
  Spec.has_digit s = false -> Spec.has_digit (JS.drop n s) = false.
Proof.
  revert s; induction n as [|n IH]; intros [|c s] H; simpl; try assumption.
  simpl in H. apply orb_false_elim in H as [_ H]. now apply IH.
Qed.

Lemma has_digit_replace (p s : string) :
  Spec.has_digit s = false -> Spec.has_digit (JS.replace p "" s) = false.
Proof.
  induction s as [|c s IH]; intros H; simpl.
  - destruct (JS.startsWith p ""); [|reflexivity].
    simpl. now apply has_digit_drop.
  - destruct (JS.startsWith p (String c s)).
    + simpl. now apply has_digit_drop.
    + simpl in *. apply orb_false_elim in H as [-> H]. now apply IH.
Qed.

Lemma indexes_runs (id : value) (text api : string) :
  indexes (mkCaptcha id (str text) api)
  = Ret (map JS.Number (Spec.runs (JS.replace "click:" "" text))).
Proof.
  unfold indexes, on_string, RegExp.match_g. cbn [_text].
  rewrite match_all_digits.
  now destruct (Spec.runs (JS.replace "click:" "" text)).
Qed.

(** C5, as the code has it: [indexes()] returns the maximal runs of decimal
    digits of the text from which the first occurrence of ["click:"] has
    been removed, wherever it stands, each run converted to a number and in
    order of occurrence; a text without digits gives the empty list. *)
Theorem indexes_digit_runs (id : value) (text api : string) :
  (exists t l,
     Spec.without_first "click:" text t /\ Spec.digit_runs t l /\
     indexes (mkCaptcha id (str text) api) = Ret (map JS.Number l)) /\
  (Spec.has_digit text = false ->
   indexes (mkCaptcha id (str text) api) = Ret []).
Proof.
  split.
  - exists (JS.replace "click:" "" text), (Spec.runs (JS.replace "click:" "" text)).
    split; [apply replace_without_first|].
    split; [apply digit_runs_runs|].
    apply indexes_runs.
  - intros H. rewrite indexes_runs, runs_no_digit; [reflexivity|].
    now apply has_digit_replace.
Qed.

Lemma indexes_digit_runs_witness :
  Spec.has_digit "click:" = false /\
  indexes (mkCaptcha (str "7") (str "click:") "OK|click:") = Ret [].
Proof.
  split; [reflexivity|].
  apply (proj2 (indexes_digit_runs (str "7") "click:" "OK|click:")). reflexivity.
Defined.

(** On the answers the service gives for tile captchas, which start with
    ["click:"], and on texts without it, the prefix reading is right. *)
Lemma indexes_leading_prefix (text : string) :
  JS.startsWith "click:" text = true \/ JS.includes "click:" text = false ->
  Spec.indexes_of_leading_prefix text.
Proof.
  intros H. exists (Spec.runs (Spec.without_prefix "click:" text)).
  split; [apply digit_runs_runs|].
  now rewrite indexes_runs, replace_without_prefix.
Qed.

(** C5 as stated fails where ["click:"] stands inside the text: it is
    removed there too, which joins the digits around it. *)
Lemma indexes_inner_click :
  indexes (mkCaptcha (str "") (str "1click:2") "") = Ret [Int 12] /\
  ~ Spec.indexes_of_leading_prefix "1click:2".
Proof.
  split; [reflexivity|].
  intros (l & Hl & H). apply digit_runs_unique in Hl. subst l.
  vm_compute in H. discriminate H.
Qed.

(** C4: [coordinates()] returns one pair [[x, y]] for each occurrence of
    [x=<digits>,y=<digits>] in the text, in order of occurrence, [x] and
    [y] being the two digit groups of the occurrence converted to numbers;
    without an occurrence the list is empty. *)
Theorem coordinates_occurrences (id : value) (text api : string) :
  coordinates (mkCaptcha id (str text) api)
  = Ret (map (fun o => [JS.Number (fst o); JS.Number (snd o)])
             (Spec.xy_occurrences text)).
Proof.
  unfold coordinates, on_string, RegExp.match_g. cbn [_text].
  rewrite match_all_xy. f_equal.
  pose proof (xy_occurrences_digits text) as H.
  induction H as [|o l Ho _ IH]; [reflexivity|].
  cbn [map]. rewrite (coordinateParser_occurrence _ Ho).
  f_equal. destruct l; [reflexivity | exact IH].
Qed.

(** The digit groups of an occurrence are digits, so their conversion is the
    integer they denote as far as doubles are exact. *)
Lemma xy_occurrences_numbers (text : string) :
  Forall (fun o => Spec.all_digits (fst o) = true /\ Spec.all_digits (snd o) = true)
         (Spec.xy_occurrences text).
Proof.
  eapply Forall_impl; [apply xy_occurrences_digits|].
  intros o Ho. apply xy_at_form in Ho as (_ & _ & Dx & _ & Dy & _). now split.
Qed.

End Accessors.

(** ** Facts about the client's computations *)
Section Effects.

Variable errors : gmap string string.
Variable env : Env.
Variable this : TwoCaptchaClient.

Section Keeps.

Variable R : World -> World -> Prop.
Hypothesis R_refl : forall w, R w w.
Hypothesis R_trans : forall w1 w2 w3, R w1 w2 -> R w2 w3 -> R w1 w3.

Lemma keeps_ret {A : Type} (a : A) : Spec.keeps R (ret a).
Proof. intros w o w' [= <- <-]. apply R_refl. Qed.

Lemma keeps_throw {A : Type} (e : exn) : Spec.keeps R (@throw A e).
Proof. intros w o w' [= <- <-]. apply R_refl. Qed.

Lemma keeps_await {A : Type} (o : outcome A) : Spec.keeps R (await o).
Proof. intros w o' w' [= <- <-]. apply R_refl. Qed.

Lemma keeps_bind {A B : Type} (m : M A) (k : A -> M B) :
  Spec.keeps R m -> (forall a, Spec.keeps R (k a)) -> Spec.keeps R (bind m k).
Proof.
  intros Hm Hk w o w' H. unfold bind in H.
  destruct (m w) as [[a|e] w1] eqn:E.
  - eapply R_trans; [exact (Hm _ _ _ E) | exact (Hk _ _ _ _ H)].
  - injection H as <- <-. exact (Hm _ _ _ E).
Qed.

Lemma keeps_if {A : Type} (b : bool) (m1 m2 : M A) :
  Spec.keeps R m1 -> Spec.keeps R m2 -> Spec.keeps R (if b then m1 else m2).
Proof. now destruct b. Qed.

Hypothesis R_warn : forall message, Spec.keeps R (console_warn message).
Hypothesis R_now : Spec.keeps R Date_now.

Lemma keeps_throwError (message : string) : Spec.keeps R (_throwError this message).
Proof.
  unfold _throwError. destruct (decide _); [apply keeps_ret|].
  apply keeps_if; [apply keeps_throw|].
  apply keeps_bind; [apply R_warn | intros; apply keeps_ret].
Qed.

Lemma keeps_validateResponse (body : data) :
  Spec.keeps R (_validateResponse errors this body).
Proof.
  apply keeps_bind; [apply keeps_await | intros [message|]; [|apply keeps_ret]].
  apply keeps_bind; [apply keeps_throwError | intros; apply keeps_ret].
Qed.

Lemma keeps_request (action method : string) :
  Spec.keeps R (HTTPRequest_request env action method) ->
  Spec.keeps R (_request errors env this action method).
Proof.
  intros Hr. apply keeps_bind; [exact Hr | intros req].
  apply keeps_bind; [apply keeps_validateResponse | intros; apply keeps_ret].
Qed.

Lemma keeps_captcha (captchaId : value) :
  Spec.keeps R (HTTPRequest_request env "res" "get") ->
  Spec.keeps R (captcha errors env this captchaId).
Proof.
  intros Hr. apply keeps_bind; [now apply keeps_request | intros res].
  apply keeps_bind; [apply keeps_await | intros; apply keeps_ret].
Qed.

Hypothesis R_upload : Spec.keeps R (HTTPRequest_request env "in" "post").


Hypothesis R_download : forall url, Spec.keeps R (HTTPRequest_openDataURL env url).




End Keeps.

End Effects.

(** ** Facts about the polling loops *)
Section Polling.

Variable errors : gmap string string.
Variable env : Env.
Variable this : TwoCaptchaClient.

Lemma later_refl (w : World) : Spec.later w w.
Proof. unfold Spec.later. lia. Qed.

Lemma later_trans (w1 w2 w3 : World) :
  Spec.later w1 w2 -> Spec.later w2 w3 -> Spec.later w1 w3.
Proof. unfold Spec.later. lia. Qed.

Lemma captcha_later (captchaId : value) :
  Spec.keeps Spec.later (captcha errors env this captchaId).
Proof.
  apply keeps_captcha.
  - apply later_refl.
  - apply later_trans.
  - intros message w o w' [= <- <-]. unfold Spec.later. simpl. lia.
  - intros w o w' [= <- <-]. unfold Spec.later. simpl. lia.
Qed.

Lemma int_gt_fin (a : Z) (q : Q) :
  Num.int_gt a (Num.fin q) = (Qfloor q <? a).
Proof.
  unfold Num.int_gt.
  destruct (Qle_bool (inject_Z a) q) eqn:E; cbn [negb]; symmetry.
  - apply Z.ltb_ge. apply Qle_bool_iff, Qfloor_resp_le in E.
    now rewrite Qfloor_Z in E.
  - apply Z.ltb_lt. apply Z.lt_nge. intros H.
    assert (Hq : Qle_bool (inject_Z a) q = true); [|congruence].
    apply Qle_bool_iff. apply Qle_trans with (inject_Z (Qfloor q)).
    + now rewrite <- Zle_Qle.
    + apply Qfloor_le.
Qed.

Lemma timer_delay_pos (ms : Num.t) : 1 <= timer_delay ms.
Proof.
  destruct ms as [| | |q]; cbn [timer_delay]; try lia.
  destruct (Qle_bool (inject_Z 1) q) eqn:E; cbn [andb]; [|lia].
  destruct (Qle_bool q (inject_Z 2147483647)); [|lia].
  apply Qle_bool_iff, Qfloor_resp_le in E. now rewrite Qfloor_Z in E.
Qed.


Lemma timeout_not_passed_over : "Captcha timeout" <> not_solved_yet.
Proof. discriminate. Qed.

(** One turn of a loop, step by step. *)
Lemma poll_turn_unfold (interval : Num.t) (startedAt : Z) (c : Captcha) (w : World) :
  let w1 := snd (_sleep env interval w) in
  let w2 := log EvNow w1 in
  poll_turn errors env this interval startedAt c w =
  if Num.int_gt (clock w1 - startedAt) (timeout this) then
    if throwErrors this then (Throw (Error "Captcha timeout"), w2)
    else (Ret (Return c), log (EvWarn "Captcha timeout") w2)
  else
    match captcha errors env this (_id c) w2 with
    | (Ret c', w3) => (Ret (Continue c'), w3)
    | (Throw e, w3) => (Throw e, w3)
    end.
Proof.
  intros w1 w2. subst w1 w2. unfold poll_turn, bind, _sleep, Date_now.
  cbn [snd log clock requests timers trace].
  match goal with |- context [Num.int_gt ?a ?b] => destruct (Num.int_gt a b) end.
  - unfold _throwError, bind, ret, throw, console_warn.
    rewrite (decide_False (P := "Captcha timeout" = not_solved_yet))
      by exact timeout_not_passed_over.
    now destruct (throwErrors this).
  - match goal with |- context [captcha ?e ?v ?t ?i ?w] =>
      now destruct (captcha e v t i w) as [[c'|e'] w3]
    end.
Qed.

Lemma poll_unfold (interval : Num.t) (startedAt : Z) (fuel : nat) (c : Captcha)
    (w : World) :
  poll errors env this interval startedAt (S fuel) c w =
  if is_empty_string (_text c) then
    match poll_turn errors env this interval startedAt c w with
    | (Ret (Return c'), w') => Some (Ret c', w')
    | (Ret (Continue c'), w') => poll errors env this interval startedAt fuel c' w'
    | (Throw e, w') => Some (Throw e, w')
    end
  else Some (Ret c, w).
Proof. reflexivity. Qed.

Lemma poll_answered (interval : Num.t) (startedAt : Z) (fuel : nat) (c : Captcha)
    (w : World) :
  is_empty_string (_text c) = false ->
  poll errors env this interval startedAt fuel c w = Some (Ret c, w).
Proof. intros H. destruct fuel; simpl; now rewrite H. Qed.

(** More fuel does not change a result. *)
Lemma poll_more_fuel (interval : Num.t) (startedAt : Z) (fuel : nat) (c : Captcha)
    (w : World) (r : outcome Captcha * World) :
  poll errors env this interval startedAt fuel c w = Some r ->
  forall fuel', (fuel <= fuel')%nat ->
  poll errors env this interval startedAt fuel' c w = Some r.
Proof.
  revert c w; induction fuel as [|fuel IH]; intros c w H fuel' Hle.
  - simpl in H. destruct (is_empty_string (_text c)) eqn:E; [discriminate|].
    now rewrite poll_answered.
  - destruct fuel' as [|fuel']; [lia|].
    rewrite poll_unfold in *.
    destruct (is_empty_string (_text c)); [|exact H].
    destruct (poll_turn errors env this interval startedAt c w) as [[[c'|c']|e] w'];
      try exact H.
    apply IH; [exact H | lia].
Qed.

(** With a deadline that time can pass, the time left bounds the turns. *)
Lemma poll_enough_fuel (interval : Num.t) (startedAt : Z) (fuel : nat) (c : Captcha)
    (w : World) :
  Num.is_deadline (timeout this) = true ->
  (Spec.turns_left this startedAt w < fuel)%nat ->
  exists r, poll errors env this interval startedAt fuel c w = Some r.
Proof.
  intros Hd.
  revert c w; induction fuel as [|fuel IH]; intros c w Hlt; [lia|].
  rewrite poll_unfold. destruct (is_empty_string (_text c)); [|eauto].
  rewrite poll_turn_unfold. cbn [_sleep snd].
  pose proof (timer_delay_pos interval) as Hpos.
  set (w1 := mkWorld _ _ _ _).
  destruct (Num.int_gt (clock w1 - startedAt) (timeout this)) eqn:Hgt.
  - destruct (throwErrors this); eauto.
  - destruct (captcha errors env this (_id c) (log EvNow w1)) as [[c'|e] w3] eqn:E;
      [|eauto].
    apply IH. apply captcha_later in E.
    unfold Spec.later, Spec.turns_left, Spec.deadline in *.
    destruct (timeout this) as [| | |q]; try discriminate.
    rewrite int_gt_fin in Hgt. apply Z.ltb_ge in Hgt.
    subst w1. cbn [log clock] in *. lia.
Qed.

(** The result of a loop is the one of its run. *)
Lemma poll_runs (interval : Num.t) (startedAt : Z) (fuel : nat) (c : Captcha)
    (w : World) (o : outcome Captcha) (w' : World) :
  poll errors env this interval startedAt fuel c w = Some (o, w') ->
  Spec.poll_run errors env this interval startedAt c w o w'.
Proof.
  revert c w; induction fuel as [|fuel IH]; intros c w H.
  - simpl in H. destruct (is_empty_string (_text c)) eqn:E; [discriminate|].
    injection H as <- <-. now constructor.
  - rewrite poll_unfold in H.
    destruct (is_empty_string (_text c)) eqn:E;
      [|injection H as <- <-; now constructor].
    rewrite poll_turn_unfold in H. fold (Spec.awake env interval w) in H.
    change (clock (snd (_sleep env interval w)))
      with (clock (Spec.awake env interval w)) in H.
    destruct (Num.int_gt _ (timeout this)) eqn:Hgt.
    + destruct (throwErrors this) eqn:T; injection H as <- <-.
      * now apply Spec.run_timeout_thrown.
      * now apply Spec.run_timeout_logged.
    + destruct (captcha errors env this (_id c) (Spec.awake env interval w))
        as [[c'|e] w3] eqn:Ec.
      * eapply Spec.run_lookup; eauto.
      * injection H as <- <-. eapply Spec.run_lookup_threw; eauto.
Qed.

(** A run has one result. *)
Lemma poll_run_unique (interval : Num.t) (startedAt : Z) (c : Captcha) (w : World)
    (o1 o2 : outcome Captcha) (w1 w2 : World) :
  Spec.poll_run errors env this interval startedAt c w o1 w1 ->
  Spec.poll_run errors env this interval startedAt c w o2 w2 ->
  o1 = o2 /\ w1 = w2.
Proof.
  intros Hrun; revert o2 w2.
  induction Hrun; intros o2 w2' Hrun2; inversion Hrun2; subst;
    try congruence; auto;
    match goal with
    | Ha : captcha _ _ _ _ _ = _, Hb : captcha _ _ _ _ _ = _ |- _ =>
        rewrite Ha in Hb; injection Hb as <- <-
    end;
    [now split | now apply IHHrun].
Qed.

End Polling.

(** ** Facts about replies and traces *)
Section Replies.

Variable errors : gmap string string.
Variable env : Env.
Variable this : TwoCaptchaClient.

Lemma pieces_field (cur a : string) :
  JS.includes "|" a = false -> JS.pieces "|" cur a = [cur +:+ a].
Proof.
  revert cur; induction a as [|c a IH]; intros cur H; simpl.
  - now rewrite sapp_nil_r.
  - rewrite includes_unfold in H. apply orb_false_elim in H as [Hc H].
    cbn [JS.startsWith] in Hc. destruct (decide (c = "|"%char)) as [->|].
    + vm_compute in Hc. discriminate Hc.
    + now rewrite IH, app_snoc.
Qed.

Lemma pieces_next (cur a b : string) :
  JS.includes "|" a = false ->
  JS.pieces "|" cur (a +:+ String "|" b) = (cur +:+ a) :: JS.pieces "|" "" b.
Proof.
  revert cur; induction a as [|c a IH]; intros cur H; simpl.
  - destruct (decide ("|"%char = "|"%char)); [|congruence]. now rewrite sapp_nil_r.
  - rewrite includes_unfold in H. apply orb_false_elim in H as [Hc H].
    cbn [JS.startsWith] in Hc. destruct (decide (c = "|"%char)) as [->|].
    + vm_compute in Hc. discriminate Hc.
    + now rewrite IH, app_snoc.
Qed.

(** [split('|', 2)] keeps the second field where all the fields have it. *)
Lemma split_second (res : string) :
  JS.at_index (JS.split "|" 2 res) 1 = Spec.second_field res.
Proof.
  unfold JS.split, Spec.second_field, Spec.fields, JS.at_index.
  now rewrite lookup_take_lt by lia.
Qed.

(** The second field of [a|b] and of [a|b|r] is [b]; a reply without
    ["|"] has none. *)
Lemma second_field_form (a b r : string) :
  JS.includes "|" a = false -> JS.includes "|" b = false ->
  Spec.second_field (a +:+ "|" +:+ b) = str b /\
  Spec.second_field (a +:+ "|" +:+ b +:+ "|" +:+ r) = str b /\
  Spec.second_field a = undefined.
Proof.
  intros Ha Hb. unfold Spec.second_field, Spec.fields, JS.at_index.
  repeat split.
  - change ("|" +:+ b) with (String "|" b).
    now rewrite pieces_next, pieces_field.
  - change ("|" +:+ b +:+ "|" +:+ r) with (String "|" (b +:+ String "|" r)).
    now rewrite !pieces_next.
  - now rewrite pieces_field.
Qed.





Lemma bind_cases {A B : Type} (m : M A) (k : A -> M B) (w : World)
    (o : outcome B) (w' : World) :
  bind m k w = (o, w') ->
  (exists e, m w = (Throw e, w') /\ o = Throw e) \/
  (exists a w1, m w = (Ret a, w1) /\ k a w1 = (o, w')).
Proof.
  unfold bind. destruct (m w) as [[a|e] w1].
  - intros H. right. eauto.
  - intros [= <- <-]. left. eauto.
Qed.

Lemma bind_returns {A B : Type} (m : M A) (k : A -> M B) (w : World) (b : B)
    (w' : World) :
  bind m k w = (Ret b, w') ->
  exists a w1, m w = (Ret a, w1) /\ k a w1 = (Ret b, w').
Proof.
  unfold bind. destruct (m w) as [[a|e] w1]; [eauto | discriminate].
Qed.




Lemma request_returns (action method : string) (w : World) (res : data)
    (w' : World) :
  _request errors env this action method w = (Ret res, w') ->
  http env (requests w) = Ret res.
Proof.
  intros H. apply bind_returns in H as (req & w1 & Hhttp & H).
  apply bind_returns in H as (b & w2 & _ & H).
  injection Hhttp as -> _. now injection H as -> _.
Qed.

Lemma split_receiver_returns (res : data) (s : string) :
  JS.split_receiver res = Ret s -> res = Text s.
Proof. destruct res; intros [=]; congruence. Qed.

(** What a lookup returns: the captcha it builds from the reply, which is
    a string. *)
Lemma captcha_returns (captchaId : value) (w : World) (c : Captcha) (w' : World) :
  captcha errors env this captchaId w = (Ret c, w') ->
  exists res, http env (requests w) = Ret (Text res) /\
              c = {| _id := captchaId; _text := Spec.second_field res;
                     _apiResponse := res |}.
Proof.
  intros H. apply bind_returns in H as (res & w1 & Hreq & H).
  apply request_returns in Hreq.
  apply bind_returns in H as (r & w2 & Hr & H).
  injection Hr as Hr _. apply split_receiver_returns in Hr as ->.
  exists r. split; [exact Hreq|].
  injection H as <- _.
  unfold set_text, set_apiResponse, set_id. cbn. now rewrite split_second.
Qed.

Lemma upload_returns (w : World) (c : Captcha) (w' : World) :
  _upload errors env this w = (Ret c, w') ->
  exists res, http env (requests w) = Ret (Text res) /\
              c = {| _id := Spec.second_field res; _text := str "";
                     _apiResponse := "" |}.
Proof.
  intros H. apply bind_returns in H as (res & w1 & Hreq & H).
  apply request_returns in Hreq.
  apply bind_returns in H as (b & w2 & _ & H).
  apply bind_returns in H as (r & w3 & Hr & H).
  injection Hr as Hr _. apply split_receiver_returns in Hr as ->.
  exists r. split; [exact Hreq|].
  injection H as <- _.
  unfold set_id. cbn. now rewrite split_second.
Qed.






End Replies.

(** ** The client *)
Section Client_properties.

Variable errors : gmap string string.
Variable env : Env.
Variable this : TwoCaptchaClient.

Lemma throwError_passes_over (w : World) :
  _throwError this not_solved_yet w = (Ret false, w).
Proof. unfold _throwError. now rewrite decide_True. Qed.

Lemma throwError_surfaces (message : string) (w : World) :
  message <> not_solved_yet ->
  _throwError this message w = Spec.surfaced this message w.
Proof.
  intros H. unfold _throwError, Spec.surfaced. rewrite decide_False by exact H.
  now destruct (throwErrors this).
Qed.

Lemma validation_message_text (body : string) :
  validation_message errors (Text body) =
  Ret match errors !! body with
      | Some (String c e) => Some (String c e)
      | _ =>
          if bool_decide (body = "") || JS.includes "ERROR" body
          then Some ("Unknown 2Captcha error: " +:+ body)
          else None
      end.
Proof.
  unfold validation_message. cbn [JS.to_key JS.strict_equal JS.toString].
  destruct (errors !! body) as [[|c e]|]; try reflexivity;
    destruct (bool_decide (body = "")); cbn [orb]; try reflexivity;
    now destruct (JS.includes "ERROR" body).
Qed.

Lemma validateResponse_message (body : data) (message : string) (w : World) :
  validation_message errors body = Ret (Some message) ->
  _validateResponse errors this body w =
  if decide (message = not_solved_yet) then (Ret false, w)
  else Spec.surfaced this message w.
Proof.
  intros H. unfold _validateResponse, bind, await. rewrite H.
  destruct (decide (message = not_solved_yet)) as [->|Hne].
  - now rewrite throwError_passes_over.
  - rewrite throwError_surfaces by exact Hne. unfold Spec.surfaced.
    now destruct (throwErrors this).
Qed.

Lemma validateResponse_accepts (body : data) (w : World) :
  validation_message errors body = Ret None ->
  _validateResponse errors this body w = (Ret true, w).
Proof. intros H. unfold _validateResponse, bind, await. now rewrite H. Qed.

Lemma validation_message_cases (body : string) :
  (Spec.accepted errors body /\ validation_message errors (Text body) = Ret None) \/
  (~ Spec.accepted errors body /\
   exists message, Spec.rejection errors body message /\
                   validation_message errors (Text body) = Ret (Some message)).
Proof.
  rewrite validation_message_text.
  unfold Spec.accepted, Spec.rejection, Spec.unmatched.
  destruct (errors !! body) as [[|c e]|] eqn:E.
  - destruct (decide (body = "")) as [->|Hb].
    + right. split; [intros (_ & H & _); congruence|]. eauto 6.
    + rewrite bool_decide_eq_false_2 by exact Hb. cbn [orb].
      destruct (JS.includes "ERROR" body) eqn:I.
      * right. split; [intros (_ & _ & H); congruence|]. eauto 6.
      * left. auto.
  - right. split; [intros ([H|H] & _); congruence|].
    exists (String c e). split; [left; split; [reflexivity | discriminate] | reflexivity].
  - destruct (decide (body = "")) as [->|Hb].
    + right. split; [intros (_ & H & _); congruence|]. eauto 6.
    + rewrite bool_decide_eq_false_2 by exact Hb. cbn [orb].
      destruct (JS.includes "ERROR" body) eqn:I.
      * right. split; [intros (_ & _ & H); congruence|]. eauto 6.
      * left. auto.
Qed.

(** C2, as the code has it: [_validateResponse] returns [true] exactly for
    a reply that has no message in the error table (an empty message counts
    as none), is not empty and does not contain ["ERROR"].  For every other
    reply it settles on the table's message, or on
    ["Unknown 2Captcha error: <body>"], and hands it to [_throwError]: the
    message is thrown as an [Error] when [throwErrors] is set, and logged
    with [false] returned when it is not; the message
    ["Your captcha is not solved yet."] is neither thrown nor logged, and
    [false] is returned.  The body is a string, as the claim has it. *)
Theorem validateResponse_accepts_or_surfaces (body : string) (w : World) :
  (fst (_validateResponse errors this (Text body) w) = Ret true <->
   Spec.accepted errors body) /\
  (Spec.accepted errors body ->
   _validateResponse errors this (Text body) w = (Ret true, w)) /\
  (~ Spec.accepted errors body ->
   exists message,
     Spec.rejection errors body message /\
     _validateResponse errors this (Text body) w =
     if decide (message = not_solved_yet) then (Ret false, w)
     else Spec.surfaced this message w).
Proof.
  destruct (validation_message_cases body) as [[Ha Hv] | (Hn & message & Hr & Hv)].
  - assert (Hok : _validateResponse errors this (Text body) w = (Ret true, w))
      by now apply validateResponse_accepts.
    split; [|split].
    + split; [now intros _ | now rewrite Hok].
    + now intros _.
    + now intros Hn.
  - pose proof (validateResponse_message _ _ w Hv) as Hm.
    split; [|split]; [|contradiction | eauto].
    split; [|contradiction].
    rewrite Hm. unfold Spec.surfaced.
    destruct (decide _); [discriminate|]. destruct (throwErrors this); discriminate.
Qed.

(** C10: [_throwError] returns [false] on the message
    ["Your captcha is not solved yet."] and leaves the world as it was,
    nothing thrown and nothing logged, whatever [throwErrors] is; so a reply
    the table gives that message neither makes [_validateResponse] throw nor
    the lookup that received it, which returns after its one request. *)
Theorem not_solved_yet_passed_over (captchaId : value) (body : string) (w : World) :
  _throwError this not_solved_yet w = (Ret false, w) /\
  (errors !! body = Some not_solved_yet ->
   _validateResponse errors this (Text body) w = (Ret false, w) /\
   (http env (requests w) = Ret (Text body) ->
    exists c w',
      captcha errors env this captchaId w = (Ret c, w') /\
      trace w' = trace w ++ [EvRequest "res" "get"])).
Proof.
  split; [apply throwError_passes_over|]. intros Hb.
  assert (Hv : forall w0, _validateResponse errors this (Text body) w0 = (Ret false, w0)).
  { intros w0. rewrite (validateResponse_message (Text body) not_solved_yet).
    - now rewrite decide_True.
    - rewrite validation_message_text. now rewrite Hb. }
  split; [apply Hv|]. intros Hh.
  unfold captcha, _request, bind, HTTPRequest_request.
  rewrite Hh, Hv. cbn. eauto.
Qed.

(** C9: a client constructed without parameters, or with none of them
    given, has a timeout of 60000 ms and a polling interval of 5000 ms (and
    does not throw errors). *)
Theorem default_configuration (k : value) (w : World) :
  exists w',
    new_TwoCaptchaClient k None w
    = (Ret {| key := k; timeout := Num.of_Z 60000; polling := Num.of_Z 5000;
              throwErrors := false |}, w') /\
    new_TwoCaptchaClient k (Some (mkParams None None None)) w
    = (Ret {| key := k; timeout := Num.of_Z 60000; polling := Num.of_Z 5000;
              throwErrors := false |}, w').
Proof.
  unfold new_TwoCaptchaClient, bind. cbn [default p_timeout p_polling p_throwErrors].
  destruct (bool_decide (typeof k = "string")); cbn; eauto.
Qed.

(** C7: a new [Captcha] has [id], [text] and [apiResponse] equal to [''];
    the captcha [_upload] returns has as [id] the second field between
    ["|"] of the reply to the upload, and its [text] still is ['']; the
    [text] is set afterwards, by the lookup, to the second field of the
    reply it receives. *)
Theorem captcha_filled_in_steps (captchaId : value) (w : World) :
  new_Captcha = {| _id := str ""; _text := str ""; _apiResponse := "" |} /\
  (forall c w',
     _upload errors env this w = (Ret c, w') ->
     exists res, http env (requests w) = Ret (Text res) /\
                 _id c = Spec.second_field res /\ _text c = str "" /\
                 _apiResponse c = "") /\
  (forall c w',
     captcha errors env this captchaId w = (Ret c, w') ->
     exists res, http env (requests w) = Ret (Text res) /\
                 _id c = captchaId /\ _text c = Spec.second_field res /\
                 _apiResponse c = res).
Proof.
  split; [reflexivity|]. split; intros c w' H.
  - apply upload_returns in H as (res & Hh & ->). eauto.
  - apply captcha_returns in H as (res & Hh & ->). eauto.
Qed.



Lemma poll_total (interval : Num.t) (startedAt : Z) (c : Captcha) (w : World) :
  Num.is_deadline (timeout this) = true ->
  exists n r, forall fuel, (n <= fuel)%nat ->
    poll errors env this interval startedAt fuel c w = Some r.
Proof.
  intros Hd.
  destruct (poll_enough_fuel errors env this interval startedAt
              (S (Spec.turns_left this startedAt w)) c w Hd) as [r Hr]; [lia|].
  exists (S (Spec.turns_left this startedAt w)), r. intros fuel Hle.
  eapply poll_more_fuel; eassumption.
Qed.

(** C3, as the code has it: with a timeout that time can exceed (a number
    below [Infinity]), a polling loop terminates whatever the replies are,
    and its result is the one of the run described: a captcha whose text is
    not [''] is returned at once, as it is; otherwise the loop sleeps and
    reads the clock, and once the time since the call started exceeds the
    timeout it stops, with ["Captcha timeout"] thrown when [throwErrors] is
    set and logged with the captcha it holds, whose text still is [''],
    returned when it is not; before that it looks the captcha up, ends with
    the exception of a lookup that throws, and goes on with the captcha the
    lookup returned.  A run has one result.  So [decode] gives a result in
    every world. *)
Theorem poll_terminates (interval : Num.t) (startedAt : Z) (c : Captcha) (w : World) :
  Num.is_deadline (timeout this) = true ->
  (exists n o w',
     (forall fuel, (n <= fuel)%nat ->
        poll errors env this interval startedAt fuel c w = Some (o, w')) /\
     Spec.poll_run errors env this interval startedAt c w o w') /\
  (forall o1 w1 o2 w2,
     Spec.poll_run errors env this interval startedAt c w o1 w1 ->
     Spec.poll_run errors env this interval startedAt c w o2 w2 ->
     o1 = o2 /\ w1 = w2) /\
  (forall options,
     exists n r, forall fuel, (n <= fuel)%nat ->
       decode errors env this options fuel w = Some r).
Proof.
  intros Hd. split; [|split].
  - destruct (poll_total interval startedAt c w Hd) as (n & [o w'] & Hn).
    exists n, o, w'. split; [exact Hn|].
    apply (poll_runs errors env this interval startedAt n). apply Hn. lia.
  - intros o1 w1 o2 w2. apply poll_run_unique.
  - intros options. unfold decode, then_poll.
    destruct (decode_upload errors env this options w) as [[[started c0]|e] w1].
    + now apply poll_total.
    + exists 0%nat. eauto.
Qed.

(** Without a deadline, a service that keeps answering with an empty text
    keeps the loop going. *)
Lemma poll_never_ends (interval : Num.t) (startedAt : Z) (reply : string) :
  Num.is_deadline (timeout this) = false ->
  (forall n, http env n = Ret (Text reply)) ->
  Spec.accepted errors reply ->
  Spec.second_field reply = str "" ->
  forall fuel c w,
    is_empty_string (_text c) = true ->
    poll errors env this interval startedAt fuel c w = None.
Proof.
  intros Hd Hh Ha Hf.
  assert (Hv : forall w0, _validateResponse errors this (Text reply) w0 = (Ret true, w0)).
  { intros w0. apply validateResponse_accepts.
    destruct (validation_message_cases reply) as [[_ Hv] | [Hn _]];
      [exact Hv | contradiction]. }
  induction fuel as [|fuel IH]; intros c w He.
  - simpl. now rewrite He.
  - rewrite poll_unfold, He, poll_turn_unfold.
    assert (Hgt : forall a, Num.int_gt a (timeout this) = false)
      by (intros a; destruct (timeout this); [reflexivity..|discriminate|discriminate]).
    rewrite Hgt.
    unfold captcha, _request, bind, HTTPRequest_request.
    rewrite Hh, Hv. cbn [await JS.split_receiver ret].
    apply IH. cbn [set_text _text]. now rewrite split_second, Hf.
Qed.

End Client_properties.

(** ** Where the error conditions are detected *)
Lemma throwError_then {A : Type} (this : TwoCaptchaClient) (message : string)
    (rest : M A) (w : World) :
  message <> not_solved_yet ->
  bind (_throwError this message) (fun _ => rest) w
  = Spec.surfaced_then this message rest w.
Proof.
  intros H. unfold bind. rewrite throwError_surfaces by exact H.
  unfold Spec.surfaced, Spec.surfaced_then. now destruct (throwErrors this).
Qed.

Section Surfacing.

Variable errors : gmap string string.
Variable env : Env.
Variable this : TwoCaptchaClient.

Lemma then_poll_surfaced (message : string) (rest : M (Z * Captcha))
    (interval : Num.t) (fuel : nat) (w : World) :
  then_poll errors env this (Spec.surfaced_then this message rest) interval fuel w
  = Spec.surfaced_call this message (then_poll errors env this rest interval fuel) w.
Proof.
  unfold then_poll, Spec.surfaced_then, Spec.surfaced_call.
  now destruct (throwErrors this).
Qed.

Lemma site_key_surfaces (missing_key : string) (options : site_options)
    (interval : Num.t) (fuel : nat) (w : World) :
  missing_key <> not_solved_yet ->
  falsy (o_sitekey options) = true ->
  then_poll errors env this (site_upload errors env this missing_key options)
            interval fuel w
  = Spec.surfaced_call this missing_key
      (then_poll errors env this
         (Spec.check_pageurl_and_upload errors env this options (clock w))
         interval fuel)
      (log EvNow w).
Proof.
  intros Hm Hf. rewrite <- then_poll_surfaced.
  unfold then_poll, site_upload. unfold bind at 1, Date_now. rewrite Hf.
  now rewrite throwError_then by exact Hm.
Qed.

Lemma site_pageurl_surfaces (missing_key : string) (options : site_options)
    (interval : Num.t) (fuel : nat) (w : World) :
  falsy (o_sitekey options) = false ->
  falsy (o_pageurl options) = true ->
  then_poll errors env this (site_upload errors env this missing_key options)
            interval fuel w
  = Spec.surfaced_call this "Missing pageurl parameter"
      (then_poll errors env this (Spec.upload_from errors env this (clock w))
         interval fuel)
      (log EvNow w).
Proof.
  intros Hk Hf. rewrite <- then_poll_surfaced.
  unfold then_poll, site_upload. unfold bind at 1, Date_now. rewrite Hk, Hf.
  unfold bind at 1, ret at 1.
  now rewrite throwError_then by discriminate.
Qed.

(** C8, as the code has it: each error condition the client detects hands
    its message to [_throwError], which throws it as an [Error] when
    [throwErrors] is set, so that nothing else of the call happens, and logs
    it as a warning when it is not, after which the call goes on.  So do the
    constructor and [decode] for a key that is no string, the three site-key
    methods for a missing or empty key and for a missing or empty page URL,
    [_loadCaptcha] for options without an image, [_validateResponse] and
    with it every request for a reply that is not accepted, and the loops
    once the deadline has passed.  The one message [_throwError] does not
    surface is ["Your captcha is not solved yet."]. *)
Theorem errors_follow_mode (w : World) :
  (forall message,
     message <> not_solved_yet ->
     _throwError this message w = Spec.surfaced this message w) /\
  (forall k p,
     typeof k <> "string" ->
     let client := {| key := k;
                      timeout := default (Num.of_Z 60000) (p ≫= p_timeout);
                      polling := default (Num.of_Z 5000) (p ≫= p_polling);
                      throwErrors := default false (p ≫= p_throwErrors) |} in
     new_TwoCaptchaClient k p w
     = Spec.surfaced_then client "2Captcha key must be a string" (ret client) w) /\
  (forall options fuel,
     typeof (key this) <> "string" ->
     decode errors env this options fuel w
     = Spec.surfaced_call this "2Captcha key must be a string"
         (then_poll errors env this
            (Spec.load_and_upload errors env this options (clock w))
            (polling this) fuel)
         (log EvNow w)) /\
  (forall options fuel,
     falsy (o_sitekey options) = true ->
     let rest message :=
       Spec.surfaced_call this message
         (then_poll errors env this
            (Spec.check_pageurl_and_upload errors env this options (clock w))
            (Num.max (polling this) (Num.of_Z 10000)) fuel)
         (log EvNow w) in
     decodeRecaptchaV2 errors env this options fuel w
     = rest "Missing googlekey parameter" /\
     decodeRecaptchaV3 errors env this options fuel w
     = rest "Missing googlekey parameter" /\
     decodeHCaptcha errors env this options fuel w
     = rest "Missing sitekey parameter") /\
  (forall options fuel,
     falsy (o_sitekey options) = false ->
     falsy (o_pageurl options) = true ->
     let rest :=
       Spec.surfaced_call this "Missing pageurl parameter"
         (then_poll errors env this (Spec.upload_from errors env this (clock w))
            (Num.max (polling this) (Num.of_Z 10000)) fuel)
         (log EvNow w) in
     decodeRecaptchaV2 errors env this options fuel w = rest /\
     decodeRecaptchaV3 errors env this options fuel w = rest /\
     decodeHCaptcha errors env this options fuel w = rest) /\
  (forall options,
     Spec.no_source options ->
     _loadCaptcha env this options w
     = Spec.surfaced_then this "No image data received" (ret "") w) /\
  (forall body message,
     validation_message errors body = Ret (Some message) ->
     message <> not_solved_yet ->
     _validateResponse errors this body w = Spec.surfaced this message w /\
     (http env (requests w) = Ret body ->
      forall action method,
        _request errors env this action method w
        = Spec.surfaced_then this message (ret body)
            (snd (HTTPRequest_request env action method w)))) /\
  (forall interval startedAt fuel c,
     is_empty_string (_text c) = true ->
     Num.int_gt (clock (Spec.awake env interval w) - startedAt) (timeout this) = true ->
     poll errors env this interval startedAt (S fuel) c w
     = Some (Spec.surfaced_then this "Captcha timeout" (ret c)
               (Spec.awake env interval w))).
Proof.
  split; [|split; [|split; [|split; [|split; [|split; [|split]]]]]].
  - intros message. apply throwError_surfaces.
  - intros k p Hk client. unfold new_TwoCaptchaClient.
    rewrite bool_decide_eq_false_2 by exact Hk.
    destruct p as [p|]; cbn [default mbind option_bind];
      now rewrite throwError_then by discriminate.
  - intros options fuel Hk. rewrite <- then_poll_surfaced.
    unfold decode, then_poll, decode_upload. unfold bind at 1, Date_now.
    rewrite bool_decide_eq_false_2 by exact Hk.
    now rewrite throwError_then by discriminate.
  - intros options fuel Hf rest. subst rest.
    unfold decodeRecaptchaV2, decodeRecaptchaV3, decodeHCaptcha.
    repeat split; now apply site_key_surfaces.
  - intros options fuel Hk Hf rest. subst rest.
    unfold decodeRecaptchaV2, decodeRecaptchaV3, decodeHCaptcha.
    repeat split; now apply site_pageurl_surfaces.
  - intros options (Hb & Hbuf & Hp & Hu). unfold _loadCaptcha.
    rewrite Hb, Hbuf, Hp, Hu. cbn [negb].
    now rewrite throwError_then by discriminate.
  - intros body message Hv Hne.
    assert (Hs : forall w0, _validateResponse errors this body w0
                            = Spec.surfaced this message w0).
    { intros w0. rewrite (validateResponse_message errors this body message w0 Hv).
      now rewrite decide_False by exact Hne. }
    split; [apply Hs|]. intros Hh action method.
    unfold _request. unfold bind at 1. unfold HTTPRequest_request at 1.
    rewrite Hh. unfold bind. rewrite Hs. cbn [snd HTTPRequest_request].
    unfold Spec.surfaced, Spec.surfaced_then. now destruct (throwErrors this).
  - intros interval startedAt fuel c He Hgt.
    rewrite poll_unfold, He, poll_turn_unfold.
    fold (Spec.awake env interval w).
    change (clock (snd (_sleep env interval w)))
      with (clock (Spec.awake env interval w)).
    rewrite Hgt. unfold Spec.surfaced_then. now destruct (throwErrors this).
Qed.

End Surfacing.

(** ** The model at work *)

Example indexes_tiles :
  indexes (mkCaptcha (str "7") (str "click:1/4/07") "OK|click:1/4/07")
  = Ret [Int 1; Int 4; Int 7].
Proof. reflexivity. Qed.

Example Number_rounds :
  JS.Number "9007199254740993" = Int 9007199254740992 /\
  JS.Number "9007199254740995" = Int 9007199254740996.
Proof. split; reflexivity. Qed.

Example coordinates_clicks :
  coordinates (mkCaptcha (str "7") (str "coordinates:x=39,y=59;x=252,y=72") "")
  = Ret [[Int 39; Int 59]; [Int 252; Int 72]].
Proof. reflexivity. Qed.

(** A lookup whose reply has no ["|"] leaves [undefined] in [text], which is
    not ['']. *)
Lemma lookup_without_answer (errors : gmap string string) (env : Env)
    (this : TwoCaptchaClient) (captchaId : value) (w : World) (c : Captcha)
    (w' : World) (res : string) :
  captcha errors env this captchaId w = (Ret c, w') ->
  http env (requests w) = Ret (Text res) ->
  JS.includes "|" res = false ->
  _text c = undefined /\ is_empty_string (_text c) = false.
Proof.
  intros H Hh Hr. apply captcha_returns in H as (res' & Hh' & ->).
  rewrite Hh in Hh'. injection Hh' as <-. cbn [_text].
  destruct (second_field_form res "" "" Hr eq_refl) as (_ & _ & ->). now split.
Qed.

(** C1 fails on the code: the reply [CAPCHA_NOT_READY] to the first lookup
    leaves [text] [undefined] instead of [''], so the loop of [decode] takes
    the captcha for answered and returns it after 5 s, with the answer of the
    next lookup never asked for. *)
Theorem pending_reply_ends_decode :
  decode sample_errors (scripted ["OK|71"; "CAPCHA_NOT_READY"; "OK|abc"])
         default_client image 20 start
  = Some (Ret {| _id := str "71"; _text := undefined;
                 _apiResponse := "CAPCHA_NOT_READY" |},
          {| clock := 1700000005240; requests := 2; timers := 1;
             trace := [EvNow; EvRequest "in" "post";
                       EvSleep (Num.of_Z 5000) 5000; EvNow;
                       EvRequest "res" "get"] |}).
Proof. vm_compute. reflexivity. Qed.

(** The accessors throw on such a captcha. *)
Lemma accessors_on_undefined (id : value) (api : string) :
  indexes (mkCaptcha id undefined api)
  = Throw (TypeError "Cannot read properties of undefined (reading 'replace')") /\
  coordinates (mkCaptcha id undefined api)
  = Throw (TypeError "Cannot read properties of undefined (reading 'match')").
Proof. split; reflexivity. Qed.

Lemma validateResponse_accepts_or_surfaces_witness :
  _validateResponse sample_errors default_client (Text "OK|71") start
  = (Ret true, start) /\
  exists message,
    Spec.rejection sample_errors "ERROR_ZERO_BALANCE" message /\
    _validateResponse sample_errors default_client (Text "ERROR_ZERO_BALANCE") start =
    if decide (message = not_solved_yet) then (Ret false, start)
    else Spec.surfaced default_client message start.
Proof.
  split.
  - apply (validateResponse_accepts_or_surfaces sample_errors default_client "OK|71" start).
    repeat split; [left; reflexivity | discriminate].
  - apply (validateResponse_accepts_or_surfaces sample_errors default_client
             "ERROR_ZERO_BALANCE" start).
    intros ([H | H] & _); vm_compute in H; discriminate H.
Defined.

(** C2 as stated fails on a reply whose message is the one [_throwError]
    passes over, which is surfaced in neither mode, and on a key of the
    table whose message is empty, which is accepted. *)
Lemma validateResponse_not_as_described :
  ~ Spec.validate_as_described sample_errors throwing_client "CAPCHA_NOT_READY" start /\
  ~ Spec.validate_as_described {[ "PENDING" := "" ]} default_client "PENDING" start.
Proof.
  split.
  - intros [_ H]. destruct H as (message & _ & H).
    + vm_compute. discriminate.
    + vm_compute in H. discriminate H.
  - intros [H _]. destruct H as [H _].
    destruct H as (H & _); [reflexivity|]. vm_compute in H. discriminate H.
Qed.

Lemma errors_follow_mode_witness :
  (typeof undefined <> "string" /\
   new_TwoCaptchaClient undefined (Some (mkParams None None (Some true))) start
   = (Throw (Error "2Captcha key must be a string"), start)) /\
  (falsy (o_sitekey (mkSite None (Some "https://example.org"))) = true /\
   decodeHCaptcha sample_errors (scripted []) throwing_client
     (mkSite None (Some "https://example.org")) 20 start
   = Some (Throw (Error "Missing sitekey parameter"), log EvNow start)) /\
  (validation_message sample_errors (Text "ERROR_ZERO_BALANCE")
   = Ret (Some "You don't have funds on your account.") /\
   _validateResponse sample_errors default_client (Text "ERROR_ZERO_BALANCE") start
   = (Ret false, log (EvWarn "You don't have funds on your account.") start)).
Proof.
  split; [|split]; (split; [first [discriminate | reflexivity]|]).
  - apply (proj1 (proj2 (errors_follow_mode sample_errors (scripted [])
                           throwing_client start))
             undefined (Some (mkParams None None (Some true)))).
    discriminate.
  - apply (proj1 (proj2 (proj2 (proj2 (errors_follow_mode sample_errors (scripted [])
                                         throwing_client start))))
             (mkSite None (Some "https://example.org")) 20%nat eq_refl).
  - apply (proj1 (proj2 (proj2 (proj2 (proj2 (proj2 (proj2
             (errors_follow_mode sample_errors (scripted []) default_client start)))))))
             (Text "ERROR_ZERO_BALANCE") "You don't have funds on your account."
             eq_refl).
    discriminate.
Defined.

(** C8 as stated fails on the reply [CAPCHA_NOT_READY]: it is not accepted,
    and its message is neither thrown when [throwErrors] is set nor logged
    when it is not. *)
Lemma pending_reply_not_surfaced :
  Spec.error_condition sample_errors not_solved_yet /\
  fst (_validateResponse sample_errors throwing_client (Text "CAPCHA_NOT_READY") start)
  = Ret false /\
  _throwError throwing_client not_solved_yet start
  <> Spec.surfaced throwing_client not_solved_yet start /\
  _throwError default_client not_solved_yet start
  <> Spec.surfaced default_client not_solved_yet start.
Proof.
  split; [|split; [reflexivity | split; vm_compute; discriminate]].
  apply (Spec.invalid_body _ "CAPCHA_NOT_READY"). left.
  split; [reflexivity | discriminate].
Qed.

Lemma not_solved_yet_passed_over_witness :
  exists c w',
    captcha sample_errors (scripted ["CAPCHA_NOT_READY"]) throwing_client
            (str "71") start = (Ret c, w') /\
    trace w' = trace start ++ [EvRequest "res" "get"].
Proof.
  apply (not_solved_yet_passed_over sample_errors (scripted ["CAPCHA_NOT_READY"])
           throwing_client (str "71") "CAPCHA_NOT_READY" start); reflexivity.
Defined.

Lemma captcha_filled_in_steps_witness :
  (exists res, http (scripted ["OK|71"]) (requests start) = Ret (Text res) /\
               _id (mkCaptcha (str "71") (str "") "") = Spec.second_field res /\
               _text (mkCaptcha (str "71") (str "") "") = str "" /\
               _apiResponse (mkCaptcha (str "71") (str "") "") = "") /\
  (exists res, http (scripted ["OK|abc"]) (requests start) = Ret (Text res) /\
               _id (mkCaptcha (str "71") (str "abc") "OK|abc") = str "71" /\
               _text (mkCaptcha (str "71") (str "abc") "OK|abc") = Spec.second_field res /\
               _apiResponse (mkCaptcha (str "71") (str "abc") "OK|abc") = res).
Proof.
  split.
  - eapply (proj1 (proj2 (captcha_filled_in_steps sample_errors (scripted ["OK|71"])
                            default_client (str "71") start))).
    vm_compute. reflexivity.
  - eapply (proj2 (proj2 (captcha_filled_in_steps sample_errors (scripted ["OK|abc"])
                            default_client (str "71") start))).
    vm_compute. reflexivity.
Defined.



Lemma poll_terminates_witness :
  Num.is_deadline (timeout default_client) = true /\
  exists n o w',
    (forall fuel, (n <= fuel)%nat ->
       poll sample_errors (scripted ["OK|"; "OK|abc"]) default_client (Num.of_Z 5000)
            (clock start) fuel new_Captcha start = Some (o, w')) /\
    Spec.poll_run sample_errors (scripted ["OK|"; "OK|abc"]) default_client
                  (Num.of_Z 5000) (clock start) new_Captcha start o w'.
Proof.
  split; [reflexivity|].
  exact (proj1 (poll_terminates sample_errors (scripted ["OK|"; "OK|abc"])
                  default_client (Num.of_Z 5000) (clock start) new_Captcha start
                  eq_refl)).
Defined.

(** C3 as stated fails in two ways.  When [throwErrors] is set and a lookup
    is answered with an error, the loop ends before the deadline with the
    exception of the lookup, which is neither of the two ends described.
    And with a timeout that is [NaN] no time exceeds it: while the service
    answers with an empty text the loop goes on, whatever the fuel. *)
Lemma poll_not_as_described :
  (poll sample_errors (scripted ["ERROR_CAPTCHA_UNSOLVABLE"]) throwing_client
        (Num.of_Z 5000) (clock start) 20 new_Captcha start
   = Some (Throw (Error "We are unable to solve your captcha."),
           {| clock := 1700000005120; requests := 1; timers := 1;
              trace := [EvSleep (Num.of_Z 5000) 5000; EvNow;
                        EvRequest "res" "get"] |}) /\
   ~ Spec.poll_ends_described sample_errors (scripted ["ERROR_CAPTCHA_UNSOLVABLE"])
       throwing_client (clock start)
       (Throw (Error "We are unable to solve your captcha."))
       {| clock := 1700000005120; requests := 1; timers := 1;
          trace := [EvSleep (Num.of_Z 5000) 5000; EvNow;
                    EvRequest "res" "get"] |}) /\
  (forall fuel,
     poll sample_errors (steady [] "OK|") timeless_client (Num.of_Z 5000)
          (clock start) fuel new_Captcha start = None).
Proof.
  split; [split; [vm_compute; reflexivity|]|].
  - intros H. inversion H.
  - intros fuel.
    apply (poll_never_ends sample_errors (steady [] "OK|") timeless_client
             (Num.of_Z 5000) (clock start) "OK|"); try reflexivity.
    repeat split; [left; reflexivity | discriminate].
Qed.

(** ** Further properties of the accessors *)
Section Formats.

Lemma starts_with_digit_app (a b : string) :
  Spec.starts_with_digit a = false -> Spec.starts_with_digit b = false ->
  Spec.starts_with_digit (a +:+ b) = false.
Proof. now destruct a. Qed.

Lemma coordinates_by_occurrence (id : value) (text api : string) :
  coordinates (mkCaptcha id (str text) api)
  = Ret (map (fun o => [JS.Number (fst o); JS.Number (snd o)])
             (Spec.xy_occurrences text)).
Proof.
  unfold coordinates, on_string, RegExp.match_g. cbn [_text].
  rewrite match_all_xy. f_equal.
  pose proof (xy_occurrences_digits text) as H.
  induction H as [|o l Ho _ IH]; [reflexivity|].
  cbn [map]. rewrite (coordinateParser_occurrence _ Ho).
  f_equal. destruct l; [reflexivity | exact IH].
Qed.

Lemma xy_occurrences_cons (o : string * string) (r : string) :
  Props.digit_pair o -> Spec.starts_with_digit r = false ->
  Spec.xy_occurrences (Spec.xy_text o +:+ r) = o :: Spec.xy_occurrences r.
Proof.
  intros [[Nx Dx] [Ny Dy]] Hr. destruct o as [dx dy]. cbn [fst snd] in *.
  assert (Hat : Spec.xy_at (Spec.xy_text (dx, dy) +:+ r) = Some (dx, dy, r)).
  { apply xy_at_form. unfold Spec.xy_text. cbn [fst snd].
    repeat split; try assumption. now rewrite !sapp_assoc. }
  assert (Hu : Spec.xy_text (dx, dy) +:+ r
               = String "x" (("=" +:+ dx +:+ ",y=" +:+ dy) +:+ r)).
  { unfold Spec.xy_text. cbn [fst snd]. now rewrite !sapp_assoc. }
  rewrite Hu in *. cbn [Spec.xy_occurrences]. rewrite Hat.
  rewrite xy_occurrences_skip; [reflexivity|].
  apply (no_x_app "="); [apply no_x_cons; [discriminate | exact no_x_nil]|].
  apply no_x_app; [now apply no_x_digits|].
  apply (no_x_app ",y="); [|now apply no_x_digits].
  repeat (apply no_x_cons; [discriminate|]). exact no_x_nil.
Qed.

Lemma xy_text_starts (o : string * string) (r : string) :
  Spec.starts_with_digit (Spec.xy_text o +:+ r) = false.
Proof. reflexivity. Qed.

Lemma xy_occurrences_concat (sep : string) (l : list (string * string)) :
  Spec.no_x sep -> Spec.starts_with_digit sep = false ->
  Forall Props.digit_pair l ->
  Spec.xy_occurrences (String.concat sep (map Spec.xy_text l)) = l.
Proof.
  intros Hx Hs Hl. induction Hl as [|o l Ho Hl IH]; [reflexivity|].
  destruct l as [|o' l'].
  - cbn [map String.concat]. rewrite <- (sapp_nil_r (Spec.xy_text o)).
    now rewrite xy_occurrences_cons.
  - change (String.concat sep (map Spec.xy_text (o :: o' :: l')))
      with (Spec.xy_text o +:+ sep +:+
            String.concat sep (map Spec.xy_text (o' :: l'))).
    rewrite xy_occurrences_cons, xy_occurrences_skip, IH; try easy.
    apply starts_with_digit_app; [exact Hs|].
    cbn [map String.concat]. destruct l'; [|apply xy_text_starts].
    rewrite <- (sapp_nil_r (Spec.xy_text o')). apply xy_text_starts.
Qed.

(** X14: an answer that lists click points as [x=<digits>,y=<digits>], after
    any heading and with any separator that has no [x] and does not start
    with a digit (the service writes [coordinates:x=39,y=59;x=252,y=72]),
    is read back point by point. *)
Theorem coordinates_of_listed_points (id : value) (api heading sep : string)
    (l : list (string * string)) :
  Spec.no_x heading -> Spec.no_x sep -> Spec.starts_with_digit sep = false ->
  Forall Props.digit_pair l ->
  coordinates
    (mkCaptcha id (str (heading +:+ String.concat sep (map Spec.xy_text l))) api)
  = Ret (map (fun o => [JS.Number (fst o); JS.Number (snd o)]) l).
Proof.
  intros Hh Hx Hs Hl.
  now rewrite coordinates_by_occurrence, xy_occurrences_skip, xy_occurrences_concat.
Qed.

Lemma Number_not_NaN (d : string) :
  Spec.all_digits d = true -> JS.Number d <> NaN.
Proof.
  intros Hd. unfold JS.Number. rewrite decimal_acc by exact Hd.
  unfold JS.to_double. now repeat destruct (_ <? _).
Qed.

(** X16: every element [coordinates()] returns is a pair of two numbers,
    neither of them [NaN]: the empty list [coordinateParser] falls back on
    never comes out. *)
Theorem coordinates_are_pairs (id : value) (text api : string) :
  exists l, coordinates (mkCaptcha id (str text) api) = Ret l /\
            Forall Props.number_pair l.
Proof.
  eexists. split; [apply coordinates_by_occurrence|].
  apply Forall_map. eapply Forall_impl; [apply xy_occurrences_digits|].
  intros o Ho. apply xy_at_form in Ho as (_ & _ & Dx & _ & Dy & _).
  exists (JS.Number (fst o)), (JS.Number (snd o)).
  split; [reflexivity|]. split; now apply Number_not_NaN.
Qed.

Lemma runs_concat (sep : string) (l : list string) :
  sep <> "" -> Spec.has_digit sep = false ->
  Forall Props.digit_group l ->
  Spec.runs (String.concat sep l) = l.
Proof.
  intros Hne Hs Hl.
  assert (Hstart : Spec.starts_with_digit sep = false).
  { destruct sep as [|c sep]; [reflexivity|]. simpl in *.
    now apply orb_false_elim in Hs as [-> _]. }
  induction Hl as [|d l [Hd Dd] Hl IH]; [reflexivity|].
  destruct l as [|d' l'].
  - cbn [String.concat]. rewrite <- (sapp_nil_r d) at 1. now rewrite runs_cons.
  - change (String.concat sep (d :: d' :: l'))
      with (d +:+ sep +:+ String.concat sep (d' :: l')).
    rewrite runs_cons, runs_skip_prefix, IH; try easy.
    now destruct sep.
Qed.

(** X15: an answer that lists tiles as ["click:"] followed by runs of digits,
    with any non-empty separator free of digits (the service writes
    [click:1/4/7]), is read back tile by tile. *)
Theorem indexes_of_listed_tiles (id : value) (api sep : string) (l : list string) :
  sep <> "" -> Spec.has_digit sep = false ->
  Forall Props.digit_group l ->
  indexes (mkCaptcha id (str ("click:" +:+ String.concat sep l)) api)
  = Ret (map JS.Number l).
Proof.
  intros Hne Hs Hl. rewrite indexes_runs.
  replace (JS.replace "click:" "" ("click:" +:+ String.concat sep l))
    with (String.concat sep l) by reflexivity.
  now rewrite runs_concat.
Qed.

End Formats.

(** ** Further properties of the client *)
Section Requests.

Variable errors : gmap string string.
Variable env : Env.
Variable this : TwoCaptchaClient.

Lemma downloads_snoc (w w' : World) (e : event) :
  trace w' = trace w ++ [e] ->
  Props.downloads w'
  = (Props.downloads w + if Props.is_download e then 1 else 0)%nat.
Proof.
  intros H. unfold Props.downloads. rewrite H, filter_app, List.length_app.
  f_equal. now destruct e.
Qed.

Lemma same_count_refl (w : World) : Props.same_count w w.
Proof. now repeat split. Qed.

Lemma same_count_trans (w1 w2 w3 : World) :
  Props.same_count w1 w2 -> Props.same_count w2 w3 -> Props.same_count w1 w3.
Proof. unfold Props.same_count. intros (? & ? & ?) (? & ? & ?). repeat split; congruence. Qed.

Lemma same_count_log (e : event) (w : World) :
  Props.is_download e = false -> Props.same_count w (log e w).
Proof.
  intros He. repeat split. rewrite (downloads_snoc w (log e w) e eq_refl), He. lia.
Qed.

Lemma same_count_warn (message : string) :
  Spec.keeps Props.same_count (console_warn message).
Proof. intros w o w' [= <- <-]. now apply same_count_log. Qed.

Lemma throwError_same_count (message : string) :
  Spec.keeps Props.same_count (_throwError this message).
Proof.
  apply keeps_throwError;
    [apply same_count_refl | apply same_count_trans | apply same_count_warn].
Qed.

Lemma validateResponse_same_count (body : data) :
  Spec.keeps Props.same_count (_validateResponse errors this body).
Proof.
  apply keeps_validateResponse;
    [apply same_count_refl | apply same_count_trans | apply same_count_warn].
Qed.

(** Loading the image sends nothing to the service and downloads once at
    most. *)
Lemma loadCaptcha_one_download (options : image_options) :
  Spec.keeps Props.one_download (_loadCaptcha env this options).
Proof.
  assert (Hrefl : forall w, Props.one_download w w)
    by (intros w; unfold Props.one_download; lia).
  intros w o w' H. unfold _loadCaptcha in H.
  destruct (negb (falsy (o_base64 options))); [injection H as _ <-; apply Hrefl|].
  destruct (o_buffer options); [injection H as _ <-; apply Hrefl|].
  destruct (negb (falsy (o_path options))).
  { apply bind_cases in H as [(e & H & _) | (b & w1 & H & H')].
    - injection H as _ <-. apply Hrefl.
    - injection H as _ <-. injection H' as _ <-. apply Hrefl. }
  destruct (negb (falsy (o_url options))).
  { assert (Hd : forall o1 w1,
              HTTPRequest_openDataURL env (default "" (o_url options)) w = (o1, w1) ->
              Props.one_download w w1).
    { intros o1 w1 [= _ <-]. unfold Props.one_download. cbn [requests clock].
      erewrite (downloads_snoc w _ (EvDownload (default "" (o_url options))))
        by reflexivity.
      cbn. lia. }
    apply bind_cases in H as [(e & H & _) | (b & w1 & H & H')].
    - now apply Hd in H.
    - apply Hd in H. now injection H' as _ <-. }
  apply bind_cases in H as [(e & H & _) | (b & w1 & H & H')].
  - apply throwError_same_count in H as (Hr & Hc & Hd).
    unfold Props.one_download. lia.
  - apply throwError_same_count in H as (Hr & Hc & Hd). injection H' as _ <-.
    unfold Props.one_download. lia.
Qed.

(** A request to the service counts one, whatever comes of it. *)
Lemma request_one_more (action method : string) :
  Spec.keeps Props.one_more (_request errors env this action method).
Proof.
  intros w o w' H. unfold _request in H. unfold Props.one_more.
  assert (H0 : forall w0,
            w0 = snd (HTTPRequest_request env action method w) ->
            requests w0 = S (requests w) /\ clock w <= clock w0 /\
            Props.downloads w0 = Props.downloads w).
  { intros w0 ->. cbn [snd HTTPRequest_request requests clock].
    erewrite (downloads_snoc w _ (EvRequest action method)) by reflexivity.
    cbn. lia. }
  apply bind_cases in H as [(e & H & _) | (req & w1 & H & H')].
  - injection H as _ <-. now apply H0.
  - injection H as _ Hw1. symmetry in Hw1. apply H0 in Hw1 as (Hr & Hc & Hd).
    apply bind_cases in H' as [(e & H & _) | (b & w2 & H & H')].
    + apply validateResponse_same_count in H as (H1 & H2 & H3).
      rewrite H1, H2, H3. now repeat split.
    + apply validateResponse_same_count in H as (H1 & H2 & H3).
      injection H' as _ <-. rewrite H1, H2, H3. now repeat split.
Qed.

Lemma captcha_one_more (captchaId : value) :
  Spec.keeps Props.one_more (captcha errors env this captchaId).
Proof.
  intros w o w' H. unfold captcha in H.
  apply bind_cases in H as [(e & H & _) | (res & w1 & H & H')].
  - now apply request_one_more in H.
  - apply request_one_more in H.
    apply bind_cases in H' as [(e & H' & _) | (r & w2 & H' & H'')].
    + now injection H' as _ <-.
    + injection H' as _ <-. now injection H'' as _ <-.
Qed.

Lemma upload_one_more : Spec.keeps Props.one_more (_upload errors env this).
Proof.
  intros w o w' H. unfold _upload in H.
  apply bind_cases in H as [(e & H & _) | (res & w1 & H & H')].
  - now apply request_one_more in H.
  - apply request_one_more in H as (H1 & H2 & H2'). unfold Props.one_more.
    assert (Hv : forall o2 w2, _validateResponse errors this res w1 = (o2, w2) ->
              requests w2 = S (requests w) /\ clock w <= clock w2 /\
              Props.downloads w2 = Props.downloads w).
    { intros o2 w2 Hv. apply validateResponse_same_count in Hv as (H3 & H4 & H5).
      rewrite H3, H4, H5. now repeat split. }
    apply bind_cases in H' as [(e & H & _) | (b & w2 & H & H')].
    + now apply Hv in H.
    + apply Hv in H.
      apply bind_cases in H' as [(e & H' & _) | (r & w3 & H' & H'')].
      * now injection H' as _ <-.
      * injection H' as _ <-. now injection H'' as _ <-.
Qed.

(** Each lookup of a loop is paid for by an interval of the time left. *)
Lemma poll_lookups (interval : Num.t) (startedAt : Z) (fuel : nat) (c : Captcha)
    (w : World) (o : outcome Captcha) (w' : World) :
  Num.is_deadline (timeout this) = true ->
  poll errors env this interval startedAt fuel c w = Some (o, w') ->
  Props.onward w w' /\ Props.downloads w' = Props.downloads w /\
  Z.of_nat (requests w' - requests w) * timer_delay interval
  <= Z.max 0 (Spec.deadline this - (clock w - startedAt)).
Proof.
  intros Hdl. unfold Props.onward.
  revert c w; induction fuel as [|fuel IH]; intros c w H.
  - simpl in H. destruct (is_empty_string (_text c)); [discriminate|].
    injection H as <- <-. rewrite Nat.sub_diag. lia.
  - rewrite poll_unfold in H. destruct (is_empty_string (_text c)).
    2:{ injection H as <- <-. rewrite Nat.sub_diag. lia. }
    rewrite poll_turn_unfold in H.
    pose proof (timer_delay_pos interval) as Hd.
    assert (Hw1 : requests (snd (_sleep env interval w)) = requests w /\
                  clock w + timer_delay interval <= clock (snd (_sleep env interval w)) /\
                  Props.downloads (snd (_sleep env interval w)) = Props.downloads w).
    { cbn [_sleep snd requests clock].
      erewrite (downloads_snoc w _ (EvSleep interval
                 (timer_delay interval + Z.of_N (timer_late env (timers w)))))
        by reflexivity.
      cbn. lia. }
    set (w1 := snd (_sleep env interval w)) in *.
    clearbody w1. destruct Hw1 as (Hr & Hc & Hdw).
    assert (Hnow : Props.same_count w1 (log EvNow w1)) by now apply same_count_log.
    destruct Hnow as (Hrn & Hcn & Hdn).
    destruct (Num.int_gt (clock w1 - startedAt) (timeout this)) eqn:Hgt.
    + assert (Props.same_count (log EvNow w1) w') as (Hr' & Hc' & Hd').
      { destruct (throwErrors this); injection H as <- <-;
          [apply same_count_refl | now apply same_count_log]. }
      rewrite Hr', Hrn, Hr, Nat.sub_diag. lia.
    + assert (Hin : clock w1 - startedAt <= Spec.deadline this).
      { unfold Spec.deadline. destruct (timeout this) as [| | |q]; try discriminate.
        rewrite int_gt_fin in Hgt. now apply Z.ltb_ge in Hgt. }
      destruct (captcha errors env this (_id c) (log EvNow w1)) as [[c'|e] w3] eqn:Ec;
        apply captcha_one_more in Ec as (Hr3 & Hc3 & Hd3).
      * apply IH in H as ((Hr' & Hc') & Hd' & Hb).
        replace (requests w' - requests w)%nat
          with (S (requests w' - requests w3)) by lia.
        rewrite Nat2Z.inj_succ. split; [lia|]. split; [lia|]. nia.
      * injection H as <- <-.
        replace (requests w3 - requests w)%nat with 1%nat by lia. lia.
Qed.

Lemma lookups_within (interval : Num.t) (n : nat) (left : Z) :
  left <= Spec.deadline this ->
  Z.of_nat n * timer_delay interval <= Z.max 0 left ->
  (n <= Props.most_lookups this interval)%nat.
Proof.
  intros Hl Hn. unfold Props.most_lookups.
  pose proof (timer_delay_pos interval) as Hd.
  assert (Z.of_nat n <= Z.max 0 (Spec.deadline this) / timer_delay interval); [|lia].
  apply Z.div_le_lower_bound; lia.
Qed.

Lemma decode_upload_counts (options : image_options) (w : World)
    (o : outcome (Z * Captcha)) (w1 : World) :
  decode_upload errors env this options w = (o, w1) ->
  Props.counted 1 w o w1.
Proof.
  intros H. unfold decode_upload in H. unfold Props.counted.
  apply bind_cases in H as [(e & H & ->) | (s & w0 & H & H')]; [discriminate H|].
  injection H as <- <-.
  assert (H0 : Props.same_count w (log EvNow w)) by now apply same_count_log.
  destruct H0 as (Hr0 & Hc0 & Hd0).
  apply bind_cases in H' as [(e & H & ->) | (b & w2 & H & H')].
  { assert (Props.same_count (log EvNow w) w1) as (Hr & _ & Hd).
    { destruct (bool_decide _); [injection H as _ <-; apply same_count_refl|].
      now apply throwError_same_count in H. }
    split; [lia | split; [lia | discriminate]]. }
  assert (H2 : Props.same_count (log EvNow w) w2).
  { destruct (bool_decide _); [injection H as _ <-; apply same_count_refl|].
    now apply throwError_same_count in H. }
  clear H. destruct H2 as (Hr2 & Hc2 & Hd2).
  apply bind_cases in H' as [(e & H & ->) | (b64 & w3 & H & H')].
  { apply loadCaptcha_one_download in H as (Hr & _ & Hd).
    split; [lia | split; [lia | discriminate]]. }
  apply loadCaptcha_one_download in H as (Hr3 & Hc3 & Hd3).
  apply bind_cases in H' as [(e & H & ->) | (c & w4 & H & H')].
  { apply upload_one_more in H as (Hr & _ & Hd).
    split; [lia | split; [lia | discriminate]]. }
  apply upload_one_more in H as (Hr4 & Hc4 & Hd4). injection H' as <- <-.
  split; [lia|]. split; [lia|]. intros s c' [= <- <-]. lia.
Qed.

Lemma site_upload_counts (missing_key : string) (options : site_options) (w : World)
    (o : outcome (Z * Captcha)) (w1 : World) :
  site_upload errors env this missing_key options w = (o, w1) ->
  Props.counted 0 w o w1.
Proof.
  intros H. unfold site_upload in H. unfold Props.counted.
  apply bind_cases in H as [(e & H & ->) | (s & w0 & H & H')]; [discriminate H|].
  injection H as <- <-.
  assert (H0 : Props.same_count w (log EvNow w)) by now apply same_count_log.
  destruct H0 as (Hr0 & Hc0 & Hd0).
  apply bind_cases in H' as [(e & H & ->) | (b & w2 & H & H')].
  { assert (Props.same_count (log EvNow w) w1) as (Hr & _ & Hd).
    { destruct (falsy _); [|injection H as _ <-; apply same_count_refl].
      now apply throwError_same_count in H. }
    split; [lia | split; [lia | discriminate]]. }
  assert (H2 : Props.same_count (log EvNow w) w2).
  { destruct (falsy _); [|injection H as _ <-; apply same_count_refl].
    now apply throwError_same_count in H. }
  clear H. destruct H2 as (Hr2 & Hc2 & Hd2).
  apply bind_cases in H' as [(e & H & ->) | (b' & w3 & H & H')].
  { assert (Props.same_count w2 w1) as (Hr & _ & Hd).
    { destruct (falsy _); [|injection H as _ <-; apply same_count_refl].
      now apply throwError_same_count in H. }
    split; [lia | split; [lia | discriminate]]. }
  assert (H3 : Props.same_count w2 w3).
  { destruct (falsy _); [|injection H as _ <-; apply same_count_refl].
    now apply throwError_same_count in H. }
  clear H. destruct H3 as (Hr3 & Hc3 & Hd3).
  apply bind_cases in H' as [(e & H & ->) | (c & w4 & H & H')].
  { apply upload_one_more in H as (Hr & _ & Hd).
    split; [lia | split; [lia | discriminate]]. }
  apply upload_one_more in H as (Hr4 & Hc4 & Hd4). injection H' as <- <-.
  split; [lia|]. split; [lia|]. intros s c' [= <- <-]. lia.
Qed.

Lemma then_poll_requests (before : M (Z * Captcha)) (interval : Num.t) (fuel : nat)
    (downloads : nat) (w : World) (o : outcome Captcha) (w' : World) :
  Num.is_deadline (timeout this) = true ->
  (forall o1 w1, before w = (o1, w1) -> Props.counted downloads w o1 w1) ->
  then_poll errors env this before interval fuel w = Some (o, w') ->
  (requests w' - requests w <= 1 + Props.most_lookups this interval)%nat /\
  (Props.downloads w' <= Props.downloads w + downloads)%nat.
Proof.
  intros Hd Hb H. unfold then_poll in H.
  destruct (before w) as [[[s c]|e] w1] eqn:E;
    destruct (Hb _ _ eq_refl) as (Hr & Hdw & Hret).
  - destruct (Hret s c eq_refl) as (-> & Hc & Hr1).
    apply poll_lookups in H as ([Hr' Hc'] & Hd' & Hn); [|exact Hd].
    apply lookups_within in Hn; [|lia]. split; lia.
  - injection H as <- <-. split; lia.
Qed.

(** X1: with a timeout that time can exceed, a polling loop makes at most
    [max(0, timeout) / interval] lookups (whole milliseconds, integer
    division; an interval a timer runs as 1 ms counts as 1), so [decode]
    sends at most one request more than that to the service, the upload, and
    downloads once at most; so do [decodeRecaptchaV2], [decodeRecaptchaV3]
    and [decodeHCaptcha] with their interval [Math.max(polling, 10000)], and
    they download nothing. *)
Theorem requests_are_bounded (fuel : nat) (w : World) (o : outcome Captcha)
    (w' : World) :
  Num.is_deadline (timeout this) = true ->
  (forall options,
     decode errors env this options fuel w = Some (o, w') ->
     (requests w' - requests w
      <= 1 + Props.most_lookups this (polling this))%nat /\
     (Props.downloads w' <= Props.downloads w + 1)%nat) /\
  (forall options,
     decodeRecaptchaV2 errors env this options fuel w = Some (o, w') \/
     decodeRecaptchaV3 errors env this options fuel w = Some (o, w') \/
     decodeHCaptcha errors env this options fuel w = Some (o, w') ->
     (requests w' - requests w
      <= 1 + Props.most_lookups this (Num.max (polling this) (Num.of_Z 10000)))%nat /\
     (Props.downloads w' <= Props.downloads w + 0)%nat).
Proof.
  intros Hd. split; intros options H.
  - eapply then_poll_requests in H; [apply H | exact Hd |].
    intros o1 w1. apply decode_upload_counts.
  - destruct H as [H | [H | H]];
      (eapply then_poll_requests in H; [apply H | exact Hd |];
       intros o1 w1; apply site_upload_counts).
Qed.

End Requests.

Section Modes.

Variable errors : gmap string string.
Variable env : Env.
Variable this : TwoCaptchaClient.

Lemma returns_ret {A : Type} (a : A) : Props.returns (ret a).
Proof. intros w. now exists a, w. Qed.

Lemma returns_bind {A B : Type} (m : M A) (k : A -> M B) :
  Props.returns m -> (forall a, Props.returns (k a)) -> Props.returns (bind m k).
Proof.
  intros Hm Hk w. destruct (Hm w) as (a & w1 & E).
  destruct (Hk a w1) as (b & w2 & E'). exists b, w2.
  unfold bind. now rewrite E.
Qed.

Section Log_mode.

Hypothesis log_mode : throwErrors this = false.
Hypothesis answers : Props.answering env.

Lemma throwError_returns (message : string) :
  Props.returns (_throwError this message).
Proof.
  intros w. unfold _throwError, bind, ret, console_warn.
  destruct (decide _); [eauto|]. rewrite log_mode. eauto.
Qed.

Lemma validated_returns (body : data) (m : option string) :
  validation_message errors body = Ret m ->
  Props.returns (_validateResponse errors this body).
Proof.
  intros Hv w. unfold _validateResponse, bind, await. rewrite Hv.
  destruct m as [message|]; [|unfold ret; eauto].
  destruct (throwError_returns message w) as (b & w1 & E). rewrite E.
  unfold ret. eauto.
Qed.

Lemma validateResponse_returns (body : string) :
  Props.returns (_validateResponse errors this (Text body)).
Proof. eapply validated_returns. apply validation_message_text. Qed.

Lemma request_returns_log (action method : string) (w : World) :
  exists body w',
    _request errors env this action method w = (Ret (Text body), w').
Proof.
  destruct (answers (requests w)) as [body Hb].
  unfold _request, bind, HTTPRequest_request. rewrite Hb.
  match goal with
  | |- context [_validateResponse errors this (Text body) ?w0] =>
      destruct (validateResponse_returns body w0) as (b & w1 & E); rewrite E
  end.
  unfold ret. eauto.
Qed.

Lemma captcha_returns_log (captchaId : value) :
  Props.returns (captcha errors env this captchaId).
Proof.
  intros w. destruct (request_returns_log "res" "get" w) as (body & w1 & E).
  unfold captcha, bind. rewrite E. cbn [await JS.split_receiver]. unfold ret. eauto.
Qed.

Lemma upload_returns_log : Props.returns (_upload errors env this).
Proof.
  intros w. destruct (request_returns_log "in" "post" w) as (body & w1 & E).
  unfold _upload, bind. rewrite E.
  destruct (validateResponse_returns body w1) as (b & w2 & E2). rewrite E2.
  cbn [await JS.split_receiver]. unfold ret. eauto.
Qed.

Lemma loadCaptcha_returns (options : image_options) :
  Props.readable env -> Props.returns (_loadCaptcha env this options).
Proof.
  intros [Hfile Hurl]. unfold _loadCaptcha.
  destruct (negb (falsy (o_base64 options))); [apply returns_ret|].
  destruct (o_buffer options); [apply returns_ret|].
  destruct (negb (falsy (o_path options))).
  { apply returns_bind; [|intros; apply returns_ret].
    intros w. destruct (Hfile (default "" (o_path options))) as [b Hb].
    unfold await. rewrite Hb. eauto. }
  destruct (negb (falsy (o_url options))).
  { apply returns_bind; [|intros; apply returns_ret].
    intros w. destruct (Hurl (default "" (o_url options))) as [b Hb].
    unfold HTTPRequest_openDataURL. rewrite Hb. eauto. }
  apply returns_bind; [apply throwError_returns | intros; apply returns_ret].
Qed.

Lemma decode_upload_returns (options : image_options) :
  Props.readable env -> Props.returns (decode_upload errors env this options).
Proof.
  intros Hr. apply returns_bind; [intros w; unfold Date_now; eauto | intros s].
  apply returns_bind.
  { destruct (bool_decide _); [apply returns_ret | apply throwError_returns]. }
  intros _. apply returns_bind; [now apply loadCaptcha_returns | intros _].
  apply returns_bind; [apply upload_returns_log | intros; apply returns_ret].
Qed.

Lemma site_upload_returns (missing_key : string) (options : site_options) :
  Props.returns (site_upload errors env this missing_key options).
Proof.
  apply returns_bind; [intros w; unfold Date_now; eauto | intros s].
  apply returns_bind.
  { destruct (falsy _); [apply throwError_returns | apply returns_ret]. }
  intros _. apply returns_bind.
  { destruct (falsy _); [apply throwError_returns | apply returns_ret]. }
  intros _.
  apply returns_bind; [apply upload_returns_log | intros; apply returns_ret].
Qed.

Lemma poll_run_returns (interval : Num.t) (startedAt : Z) (c : Captcha) (w : World)
    (o : outcome Captcha) (w' : World) :
  Spec.poll_run errors env this interval startedAt c w o w' ->
  exists c', o = Ret c'.
Proof.
  induction 1 as [c w He | c w He Hgt Ht | c w He Hgt Ht
                  | c w e w2 He Hgt Hc | c w c1 w2 o w' He Hgt Hc Hrun IH];
    eauto; [congruence|].
  destruct (captcha_returns_log (_id c) (Spec.awake env interval w)) as (c1 & w3 & E).
  congruence.
Qed.

Hypothesis has_deadline : Num.is_deadline (timeout this) = true.

Lemma poll_returns (interval : Num.t) (startedAt : Z) (c : Captcha) (w : World) :
  exists n c' w', forall fuel, (n <= fuel)%nat ->
    poll errors env this interval startedAt fuel c w = Some (Ret c', w').
Proof.
  destruct (poll_total errors env this interval startedAt c w has_deadline)
    as (n & [o w'] & Hn).
  assert (Hrun : Spec.poll_run errors env this interval startedAt c w o w')
    by (apply (poll_runs errors env this interval startedAt n); apply Hn; lia).
  apply poll_run_returns in Hrun as [c' ->]. now exists n, c', w'.
Qed.

Lemma then_poll_returns (before : M (Z * Captcha)) (interval : Num.t) (w : World) :
  Props.returns before ->
  exists n c w', forall fuel, (n <= fuel)%nat ->
    then_poll errors env this before interval fuel w = Some (Ret c, w').
Proof.
  intros Hb. destruct (Hb w) as ([s c] & w1 & E). unfold then_poll. rewrite E.
  apply poll_returns.
Qed.

End Log_mode.

(** X2: with [throwErrors] off, a timeout that time can exceed and a
    service whose replies all reach the client as strings,
    [decodeRecaptchaV2], [decodeRecaptchaV3] and [decodeHCaptcha] never
    throw: whatever the replies say and the options are, they return a
    Captcha.  So does [decode] when the image it is given can be read. *)
Theorem log_mode_never_throws (w : World) :
  throwErrors this = false -> Props.answering env ->
  Num.is_deadline (timeout this) = true ->
  (forall options,
     Props.readable env ->
     exists n c w', forall fuel, (n <= fuel)%nat ->
       decode errors env this options fuel w = Some (Ret c, w')) /\
  (forall options,
     (exists n c w', forall fuel, (n <= fuel)%nat ->
        decodeRecaptchaV2 errors env this options fuel w = Some (Ret c, w')) /\
     (exists n c w', forall fuel, (n <= fuel)%nat ->
        decodeRecaptchaV3 errors env this options fuel w = Some (Ret c, w')) /\
     (exists n c w', forall fuel, (n <= fuel)%nat ->
        decodeHCaptcha errors env this options fuel w = Some (Ret c, w'))).
Proof.
  intros Hl Ha Hd. split.
  - intros options Hr. apply then_poll_returns; try assumption.
    now apply decode_upload_returns.
  - intros options.
    repeat split; (apply then_poll_returns; try assumption;
                   now apply site_upload_returns).
Qed.

(** X3: with [throwErrors] on, a call of [decodeRecaptchaV2],
    [decodeRecaptchaV3] or [decodeHCaptcha] that lacks the site key or the
    page URL (missing or empty) throws before anything is sent: the clock has
    been read and nothing else has happened.  The error names the key when
    the key is lacking, and the page URL otherwise. *)
Theorem missing_parameter_fails_fast (options : site_options) (fuel : nat) (w : World) :
  throwErrors this = true ->
  falsy (o_sitekey options) = true \/ falsy (o_pageurl options) = true ->
  decodeRecaptchaV2 errors env this options fuel w
  = Some (Throw (Error (if falsy (o_sitekey options)
                        then "Missing googlekey parameter"
                        else "Missing pageurl parameter")), log EvNow w) /\
  decodeRecaptchaV3 errors env this options fuel w
  = Some (Throw (Error (if falsy (o_sitekey options)
                        then "Missing googlekey parameter"
                        else "Missing pageurl parameter")), log EvNow w) /\
  decodeHCaptcha errors env this options fuel w
  = Some (Throw (Error (if falsy (o_sitekey options)
                        then "Missing sitekey parameter"
                        else "Missing pageurl parameter")), log EvNow w).
Proof.
  intros Ht Hm.
  assert (H : forall missing_key, missing_key <> not_solved_yet ->
            site_upload errors env this missing_key options w
            = (Throw (Error (if falsy (o_sitekey options) then missing_key
                             else "Missing pageurl parameter")), log EvNow w)).
  { intros missing_key Hne. unfold site_upload, bind, Date_now.
    destruct (falsy (o_sitekey options)) eqn:Ek.
    - rewrite throwError_surfaces by exact Hne.
      unfold Spec.surfaced. now rewrite Ht.
    - destruct Hm as [Hm | Hm]; [discriminate|]. rewrite Hm. unfold ret.
      rewrite throwError_surfaces by discriminate.
      unfold Spec.surfaced. now rewrite Ht. }
  unfold decodeRecaptchaV2, decodeRecaptchaV3, decodeHCaptcha, then_poll.
  rewrite !H by discriminate. now destruct (falsy (o_sitekey options)).
Qed.


(** X5: where [_loadCaptcha] takes the image from.  A non-empty [base64]
    is returned as it is, whatever else is given; without it a buffer
    is encoded, also an empty one; without either the file of a non-empty
    [path] is read, and without that the bytes of a non-empty [url] are
    downloaded, which takes its time and throws an [Error] naming the URL
    when it fails; only when there is no buffer and [base64], [path] and
    [url] are each missing or empty is ["No image data received"] raised
    (thrown, or logged with [''] returned).  In no other case is anything
    logged or sent to the service: the download apart, the world stays as it
    is. *)
Theorem image_sources (options : image_options) (w : World) :
  (forall b, o_base64 options = Some b -> b <> "" ->
     _loadCaptcha env this options w = (Ret b, w)) /\
  (forall bytes, falsy (o_base64 options) = true -> o_buffer options = Some bytes ->
     _loadCaptcha env this options w = (Ret (toBase64 env bytes), w)) /\
  (forall path,
     falsy (o_base64 options) = true -> o_buffer options = None ->
     o_path options = Some path -> path <> "" ->
     _loadCaptcha env this options w
     = (match readFile env path with
        | Ret bytes => Ret (toBase64 env bytes)
        | Throw e => Throw e
        end, w)) /\
  (forall url,
     falsy (o_base64 options) = true -> o_buffer options = None ->
     falsy (o_path options) = true ->
     o_url options = Some url -> url <> "" ->
     _loadCaptcha env this options w
     = (match fetch env url with
        | Ret bytes => Ret (toBase64 env bytes)
        | Throw (Error message) | Throw (TypeError message) =>
            Throw (Error ("Failed to fetch data from URL: " +:+ url +:+
                          ". Error: " +:+ message))
        end,
        {| clock := clock w + Z.of_N (fetch_ms env url);
           requests := requests w;
           timers := timers w;
           trace := trace w ++ [EvDownload url] |})) /\
  (Spec.no_source options ->
     _loadCaptcha env this options w =
     if throwErrors this then (Throw (Error "No image data received"), w)
     else (Ret "", log (EvWarn "No image data received") w)) /\
  (~ Spec.no_source options ->
     exists o w', _loadCaptcha env this options w = (o, w') /\
                  requests w' = requests w /\
                  (trace w' = trace w \/
                   exists url, o_url options = Some url /\
                               trace w' = trace w ++ [EvDownload url])).
Proof.
  unfold Spec.no_source, _loadCaptcha. repeat split.
  - intros b -> Hb. now destruct b.
  - intros bytes -> ->. reflexivity.
  - intros path -> -> -> Hp. cbn [negb].
    assert (Hf : falsy (Some path) = false) by now destruct path.
    rewrite Hf. cbn [negb default from_option id]. unfold bind, await, ret.
    now destruct (readFile env path).
  - intros url -> -> -> -> Hu. cbn [negb].
    assert (Hf : falsy (Some url) = false) by now destruct url.
    rewrite Hf. cbn [negb default from_option id]. unfold bind, HTTPRequest_openDataURL, ret.
    now destruct (fetch env url) as [bytes|[m|m]].
  - intros (-> & -> & -> & ->). cbn [negb]. unfold bind.
    rewrite throwError_surfaces by discriminate. unfold Spec.surfaced.
    now destruct (throwErrors this).
  - intros Hn. destruct (falsy (o_base64 options)) eqn:E1; cbn [negb]; [|eauto 6].
    destruct (o_buffer options) eqn:E2; [eauto 6|].
    destruct (falsy (o_path options)) eqn:E3; cbn [negb].
    2:{ unfold bind, await, ret. destruct (readFile env _); eauto 6. }
    destruct (falsy (o_url options)) eqn:E4; cbn [negb].
    2:{ destruct (o_url options) as [url|] eqn:Eu; [|discriminate E4].
        cbn [default from_option id]. unfold bind, HTTPRequest_openDataURL, ret.
        destruct (fetch env url) as [bytes|[m|m]];
          (eexists; eexists; split; [reflexivity|]; split; [reflexivity|];
           right; exists url; now split). }
    now destruct Hn.
Qed.

(** X6: with [throwErrors] off, a reply to the upload that is not accepted
    is warned about twice, once by [_request] and once by [_upload], and the
    Captcha is returned all the same, with whatever second field the reply
    has as id. *)
Theorem rejected_upload_warns_twice (body message : string) (w : World) :
  throwErrors this = false ->
  http env (requests w) = Ret (Text body) ->
  validation_message errors (Text body) = Ret (Some message) ->
  message <> not_solved_yet ->
  exists w',
    _upload errors env this w
    = (Ret {| _id := Spec.second_field body; _text := str ""; _apiResponse := "" |},
       w') /\
    trace w' = trace w ++ [EvRequest "in" "post"; EvWarn message; EvWarn message].
Proof.
  intros Hl Hh Hv Hne.
  assert (Hval : forall w0, _validateResponse errors this (Text body) w0
                            = (Ret false, log (EvWarn message) w0)).
  { intros w0. rewrite (validateResponse_message errors this _ message w0 Hv).
    rewrite decide_False by exact Hne. unfold Spec.surfaced. now rewrite Hl. }
  unfold _upload, _request, bind, HTTPRequest_request.
  rewrite Hh, Hval. unfold ret. rewrite Hval. cbn [await JS.split_receiver].
  rewrite split_second.
  eexists. split; [reflexivity|]. cbn. now rewrite <- !app_assoc.
Qed.

Lemma poll_keeps_id (interval : Num.t) (startedAt : Z) (fuel : nat) (c : Captcha)
    (w : World) (c' : Captcha) (w' : World) :
  poll errors env this interval startedAt fuel c w = Some (Ret c', w') ->
  _id c' = _id c.
Proof.
  revert c w; induction fuel as [|fuel IH]; intros c w H.
  - simpl in H. destruct (is_empty_string (_text c)); [discriminate|].
    now injection H as <- _.
  - rewrite poll_unfold in H. destruct (is_empty_string (_text c)).
    2:{ now injection H as <- _. }
    rewrite poll_turn_unfold in H.
    destruct (Num.int_gt _ (timeout this)).
    + destruct (throwErrors this); [discriminate|]. now injection H as <- _.
    + destruct (captcha errors env this (_id c) _) as [[c1|e] w3] eqn:Ec;
        [|discriminate].
      apply captcha_returns in Ec as (res & _ & ->). now apply IH in H.
Qed.

Lemma decode_upload_id (options : image_options) (w : World) (s : Z) (c : Captcha)
    (w1 : World) :
  decode_upload errors env this options w = (Ret (s, c), w1) ->
  exists res, http env (requests w) = Ret (Text res) /\
              _id c = Spec.second_field res.
Proof.
  intros H. apply decode_upload_counts in H as Hcount.
  unfold decode_upload in H.
  apply bind_returns in H as (s0 & w0 & E0 & H). injection E0 as _ <-.
  apply bind_returns in H as (b & w2 & E2 & H).
  assert (H2 : Props.same_count (log EvNow w) w2).
  { destruct (bool_decide _); [injection E2 as _ <-; apply same_count_refl|].
    now apply throwError_same_count in E2. }
  destruct H2 as (Hr2 & _). cbn in Hr2.
  apply bind_returns in H as (b64 & w3 & E3 & H).
  apply loadCaptcha_one_download in E3 as (Hr3 & _).
  apply bind_returns in H as (c0 & w4 & E4 & H). injection H as _ <- _.
  apply upload_returns in E4 as (res & Hh & ->).
  rewrite Hr3, Hr2 in Hh. eauto.
Qed.

Lemma site_upload_id (missing_key : string) (options : site_options) (w : World)
    (s : Z) (c : Captcha) (w1 : World) :
  site_upload errors env this missing_key options w = (Ret (s, c), w1) ->
  exists res, http env (requests w) = Ret (Text res) /\
              _id c = Spec.second_field res.
Proof.
  intros H. unfold site_upload in H.
  apply bind_returns in H as (s0 & w0 & E0 & H). injection E0 as _ <-.
  apply bind_returns in H as (b & w2 & E2 & H).
  assert (H2 : Props.same_count (log EvNow w) w2).
  { destruct (falsy (o_sitekey options));
      [|injection E2 as _ <-; apply same_count_refl].
    now apply throwError_same_count in E2. }
  destruct H2 as (Hr2 & _). cbn in Hr2.
  apply bind_returns in H as (b' & w3 & E3 & H).
  assert (H3 : Props.same_count w2 w3).
  { destruct (falsy (o_pageurl options));
      [|injection E3 as _ <-; apply same_count_refl].
    now apply throwError_same_count in E3. }
  destruct H3 as (Hr3 & _).
  apply bind_returns in H as (c0 & w4 & E4 & H). injection H as _ <- _.
  apply upload_returns in E4 as (res & Hh & ->).
  rewrite Hr3, Hr2 in Hh. eauto.
Qed.

Lemma then_poll_id (before : M (Z * Captcha)) (interval : Num.t) (fuel : nat)
    (w : World) (c : Captcha) (w' : World) :
  (forall s c0 w1, before w = (Ret (s, c0), w1) ->
     exists res, http env (requests w) = Ret (Text res) /\
                 _id c0 = Spec.second_field res) ->
  then_poll errors env this before interval fuel w = Some (Ret c, w') ->
  exists res, http env (requests w) = Ret (Text res) /\
              _id c = Spec.second_field res.
Proof.
  intros Hb H. unfold then_poll in H.
  destruct (before w) as [[[s c0]|e] w1] eqn:E; [|discriminate].
  destruct (Hb _ _ _ eq_refl) as (res & Hh & Hid).
  apply poll_keeps_id in H. exists res. split; [exact Hh | congruence].
Qed.

(** X7: the id of the Captcha a decoding method returns is the second
    field of the reply to its upload, however many lookups were made and
    whether it ended on an answer or on the timeout: the lookups carry the id
    along unchanged. *)
Theorem returned_id_is_the_uploaded (fuel : nat) (w : World) (c : Captcha) (w' : World) :
  (forall options,
     decode errors env this options fuel w = Some (Ret c, w') ->
     exists res, http env (requests w) = Ret (Text res) /\
                 _id c = Spec.second_field res) /\
  (forall options,
     decodeRecaptchaV2 errors env this options fuel w = Some (Ret c, w') \/
     decodeRecaptchaV3 errors env this options fuel w = Some (Ret c, w') \/
     decodeHCaptcha errors env this options fuel w = Some (Ret c, w') ->
     exists res, http env (requests w) = Ret (Text res) /\
                 _id c = Spec.second_field res).
Proof.
  split; intros options H.
  - eapply then_poll_id; [|exact H]. intros s c0 w1. apply decode_upload_id.
  - destruct H as [H | [H | H]];
      (eapply then_poll_id; [|exact H]; intros s c0 w1; apply site_upload_id).
Qed.

Lemma accepted_validates (body : string) (w : World) :
  Spec.accepted errors body ->
  _validateResponse errors this (Text body) w = (Ret true, w).
Proof.
  intros Ha. destruct (validation_message_cases errors body) as [[_ Hv] | [Hn _]];
    [|contradiction].
  now apply validateResponse_accepts.
Qed.

(** X8: a loop that has no answer yet returns the answer of its next
    lookup: when the deadline has not passed after the sleep and the reply is
    accepted and has a non-empty second field, the Captcha returned has that
    field as text, the reply as [apiResponse] and the id it was looked up by,
    after one sleep and one request. *)
Theorem next_answer_is_returned (interval : Num.t) (startedAt : Z) (fuel : nat)
    (c : Captcha) (w : World) (ans t : string) :
  is_empty_string (_text c) = true ->
  Num.int_gt
    (clock w + (timer_delay interval + Z.of_N (timer_late env (timers w))) - startedAt)
    (timeout this) = false ->
  http env (requests w) = Ret (Text ans) ->
  Spec.accepted errors ans ->
  Spec.second_field ans = str t -> t <> "" ->
  exists w',
    poll errors env this interval startedAt (S fuel) c w
    = Some (Ret {| _id := _id c; _text := str t; _apiResponse := ans |}, w') /\
    requests w' = S (requests w) /\
    trace w' = trace w ++
               [EvSleep interval
                  (timer_delay interval + Z.of_N (timer_late env (timers w)));
                EvNow; EvRequest "res" "get"].
Proof.
  intros He Hin Hh Ha Hs Ht.
  rewrite poll_unfold, He, poll_turn_unfold. cbn [_sleep snd clock].
  rewrite Hin.
  unfold captcha, _request, bind, HTTPRequest_request.
  cbn [log requests]. rewrite Hh, accepted_validates by exact Ha.
  unfold ret. cbn [await JS.split_receiver]. rewrite split_second, Hs.
  rewrite poll_answered by (cbn; now destruct t).
  eexists. split; [reflexivity|]. split; [reflexivity|].
  cbn. now rewrite <- !app_assoc.
Qed.

Lemma includes_after (p a t : string) :
  JS.includes p t = true -> JS.includes p (a +:+ t) = true.
Proof.
  intros H. induction a as [|c a IH]; [exact H|].
  cbn [String.append]. rewrite includes_unfold, IH. apply orb_true_r.
Qed.

(** X9: an answer that contains ["ERROR"] is taken for an error.  When the
    reply [OK|<text>] has no message in the table and the text contains
    ["ERROR"], the lookup throws ["Unknown 2Captcha error: OK|<text>"] with
    [throwErrors] on; with it off the Captcha is returned with the text, and
    the message is logged. *)
Theorem answer_with_ERROR_is_rejected (captchaId : value) (t : string) (w : World) :
  Spec.unmatched errors ("OK|" +:+ t) ->
  JS.includes "ERROR" t = true ->
  http env (requests w) = Ret (Text ("OK|" +:+ t)) ->
  exists w1,
    trace w1 = trace w ++ [EvRequest "res" "get"] /\
    captcha errors env this captchaId w =
    if throwErrors this
    then (Throw (Error ("Unknown 2Captcha error: OK|" +:+ t)), w1)
    else (Ret {| _id := captchaId; _text := Spec.second_field ("OK|" +:+ t);
                 _apiResponse := "OK|" +:+ t |},
          log (EvWarn ("Unknown 2Captcha error: OK|" +:+ t)) w1).
Proof.
  intros Hu Hi Hh.
  assert (Hv : validation_message errors (Text ("OK|" +:+ t))
               = Ret (Some ("Unknown 2Captcha error: OK|" +:+ t))).
  { rewrite validation_message_text.
    rewrite (includes_after "ERROR" "OK|" t Hi), orb_true_r.
    now destruct Hu as [-> | ->]. }
  unfold captcha, _request, bind, HTTPRequest_request. rewrite Hh.
  rewrite (validateResponse_message errors this _ _ _ Hv).
  rewrite decide_False by discriminate. unfold Spec.surfaced.
  eexists. split; [|destruct (throwErrors this); [reflexivity|]].
  - reflexivity.
  - unfold ret. cbn [await JS.split_receiver]. now rewrite split_second.
Qed.

Lemma strict_equal_true (res : data) (s : string) :
  JS.strict_equal res s = true <-> res = Text s.
Proof.
  destruct res as [t| |k sh]; cbn [JS.strict_equal].
  - rewrite bool_decide_eq_true. split; [now intros -> | now intros [= ->]].
  - split; discriminate.
  - split; discriminate.
Qed.

(** X10: [report] answers [true] exactly when the reply is the string
    [OK_REPORT_RECORDED]; with [throwErrors] off every other reply that is a
    string, an error code too, gives [false] and no exception. *)
Theorem report_verdict (captchaId : value) (bad : bool) (w : World) :
  (forall b w',
     report errors env this captchaId bad w = (Ret b, w') ->
     exists res, http env (requests w) = Ret res /\
                 (b = true <-> res = Text "OK_REPORT_RECORDED")) /\
  (throwErrors this = false ->
   forall res, http env (requests w) = Ret (Text res) ->
     exists w', report errors env this captchaId bad w
                = (Ret (bool_decide (res = "OK_REPORT_RECORDED")), w')).
Proof.
  split.
  - intros b w' H. unfold report in H.
    apply bind_returns in H as (res & w1 & E & H).
    apply request_returns in E. injection H as <- _.
    exists res. split; [exact E|]. apply strict_equal_true.
  - intros Hl res Hh. unfold report, _request, bind, HTTPRequest_request.
    rewrite Hh.
    match goal with
    | |- context [_validateResponse errors this (Text res) ?w0] =>
        destruct (validated_returns Hl (Text res) _ (validation_message_text errors res) w0)
          as (b & w1 & E); rewrite E
    end.
    unfold ret. cbn [JS.strict_equal]. eauto.
Qed.


End Modes.

(** ** Properties of the forms *)
Section Forms.

Variable this : TwoCaptchaClient.

Lemma upload_args_lookup (options : gmap string jsval) (k : string) :
  k <> "base64" -> k <> "buffer" -> k <> "path" -> k <> "url" ->
  Form.upload_args options !! k =
  match options !! k with
  | Some v => Some v
  | None =>
      (<["method" := if Form.not_nullish (Form.prop options "method")
                     then Form.prop options "method" else JStr "base64"]>
         (if Form.not_nullish (Form.prop options "base64") &&
             Form.not_empty_string (Form.prop options "base64")
          then <["body" := Form.prop options "base64"]> ∅ else ∅)
       : gmap string jsval) !! k
  end.
Proof.
  intros H1 H2 H3 H4. unfold Form.upload_args.
  rewrite !lookup_delete_ne by congruence.
  rewrite lookup_union, lookup_delete_ne by congruence.
  destruct (options !! k) as [v|]; [|now rewrite (left_id None _)].
  now destruct (_ !! k).
Qed.

(** X11: the fields of an upload, read off the options [_upload] is given.
    [base64], [buffer], [path] and [url] are never among them.  [method] is
    the option's own [method] when it has one, also one that holds
    [undefined], and ["base64"] when it has none.  [body] is the [base64]
    option when that is neither missing nor empty, unless the options have a
    [body] of their own, which wins.  Every other option is passed on as it
    is. *)
Theorem upload_form (options : gmap string jsval) :
  (forall k, k ∈ Props.local_keys -> Form.upload_args options !! k = None) /\
  Form.upload_args options !! "method"
  = Some (default (JStr "base64") (options !! "method")) /\
  Form.upload_args options !! "body"
  = match options !! "body" with
    | Some v => Some v
    | None =>
        if Form.not_nullish (Form.prop options "base64") &&
           Form.not_empty_string (Form.prop options "base64")
        then Some (Form.prop options "base64") else None
    end /\
  (forall k, k ∉ Props.local_keys -> k <> "method" -> k <> "body" ->
     Form.upload_args options !! k = options !! k).
Proof.
  split; [|split; [|split]].
  - intros k Hk. unfold Props.local_keys in Hk. unfold Form.upload_args.
    repeat (apply elem_of_cons in Hk as [-> | Hk]);
      [..|now apply elem_of_nil in Hk].
    + rewrite !lookup_delete_ne by discriminate. apply lookup_delete_eq.
    + rewrite !lookup_delete_ne by discriminate. apply lookup_delete_eq.
    + rewrite !lookup_delete_ne by discriminate. apply lookup_delete_eq.
    + apply lookup_delete_eq.
  - rewrite upload_args_lookup by discriminate. unfold Form.prop.
    destruct (options !! "method") as [v|]; [reflexivity|].
    now rewrite lookup_insert_eq.
  - rewrite upload_args_lookup by discriminate.
    destruct (options !! "body") as [v|]; [reflexivity|].
    rewrite lookup_insert_ne by discriminate.
    destruct (_ && _); [apply lookup_insert_eq | apply lookup_empty].
  - intros k Hk Hm Hb. unfold Props.local_keys in Hk.
    rewrite upload_args_lookup by (intros ->; apply Hk; set_solver).
    destruct (options !! k) as [v|]; [reflexivity|].
    rewrite lookup_insert_ne by congruence.
    destruct (_ && _); [|apply lookup_empty].
    rewrite lookup_insert_ne by congruence. apply lookup_empty.
Qed.

(** X12: what [decode] uploads for an image.  With options that have no
    [body] of their own, the form has the image as [body] when
    [_loadCaptcha] gave a non-empty string and no [body] at all when it gave
    [''], as it does after ["No image data received"] was only logged. *)
Theorem decode_form (options : gmap string jsval) (base64 : string) :
  options !! "body" = None ->
  Form.upload_args (Form.decode_options options base64) !! "body"
  = (if decide (base64 = "") then None else Some (JStr base64)) /\
  Form.upload_args (Form.decode_options options base64) !! "base64" = None.
Proof.
  intros Hb. split.
  - rewrite upload_args_lookup by discriminate.
    unfold Form.decode_options, Form.prop.
    rewrite lookup_insert_ne, Hb by discriminate.
    rewrite lookup_insert_ne, lookup_insert_eq by discriminate. cbn.
    destruct (decide (base64 = "")) as [->|Hne]; [reflexivity|].
    destruct base64; [contradiction|]. cbn. apply lookup_insert_eq.
  - unfold Form.upload_args.
    rewrite !lookup_delete_ne by discriminate. apply lookup_delete_eq.
Qed.

(** X13: what the site-key methods send.  The form [_request] receives
    from [_upload] is the options object they built, nothing dropped and
    nothing added, with the flags as the numbers 1 and 0; the request adds the
    client's key and [soft_id] 2386. *)
Theorem site_forms (options : site_options) (invisible enterprise : option bool)
    (action : option string) :
  Form.request_payload this
    (Form.upload_args (Form.recaptchaV2_options options invisible enterprise))
  = <["key" := Form.of_value (key this)]>
      (<["soft_id" := JNum 2386]>
         (Form.recaptchaV2_options options invisible enterprise)) /\
  Form.request_payload this
    (Form.upload_args (Form.recaptchaV3_options options action enterprise))
  = <["key" := Form.of_value (key this)]>
      (<["soft_id" := JNum 2386]>
         (Form.recaptchaV3_options options action enterprise)) /\
  Form.request_payload this
    (Form.upload_args (Form.hcaptcha_options options invisible))
  = <["key" := Form.of_value (key this)]>
      (<["soft_id" := JNum 2386]> (Form.hcaptcha_options options invisible)) /\
  (Form.flag invisible = JNum 1 \/ Form.flag invisible = JNum 0).
Proof.
  repeat split; try reflexivity.
  unfold Form.flag. destruct (default false invisible); auto.
Qed.

End Forms.

(** ** The further properties at work *)

Lemma requests_are_bounded_witness :
  Num.is_deadline (timeout default_client) = true /\
  (3 - requests start
   <= 1 + Props.most_lookups default_client (polling default_client))%nat /\
  (Props.downloads
     {| clock := 1700000010440; requests := 3; timers := 2;
        trace := [EvNow; EvDownload "https://example.org/c.png";
                  EvRequest "in" "post";
                  EvSleep (Num.of_Z 5000) 5000; EvNow; EvRequest "res" "get";
                  EvSleep (Num.of_Z 5000) 5000; EvNow; EvRequest "res" "get"] |}
   <= Props.downloads start + 1)%nat.
Proof.
  split; [reflexivity|].
  apply (proj1 (requests_are_bounded sample_errors
                  (scripted ["OK|71"; "OK|"; "OK|abc"]) default_client 20 start
                  (Ret {| _id := str "71"; _text := str "abc"; _apiResponse := "OK|abc" |})
                  {| clock := 1700000010440; requests := 3; timers := 2;
                     trace := [EvNow; EvDownload "https://example.org/c.png";
                               EvRequest "in" "post";
                               EvSleep (Num.of_Z 5000) 5000; EvNow;
                               EvRequest "res" "get";
                               EvSleep (Num.of_Z 5000) 5000; EvNow;
                               EvRequest "res" "get"] |}
                  eq_refl)
          url_image).
  vm_compute. reflexivity.
Defined.

Lemma log_mode_never_throws_witness :
  throwErrors default_client = false /\
  Props.answering (steady ["ERROR_ZERO_BALANCE"] "CAPCHA_NOT_READY") /\
  Num.is_deadline (timeout default_client) = true /\
  exists n c w', forall fuel, (n <= fuel)%nat ->
    decodeRecaptchaV2 sample_errors (steady ["ERROR_ZERO_BALANCE"] "CAPCHA_NOT_READY")
      default_client (mkSite None None) fuel start = Some (Ret c, w').
Proof.
  assert (Ha : Props.answering (steady ["ERROR_ZERO_BALANCE"] "CAPCHA_NOT_READY"))
    by (intros n; eexists; reflexivity).
  split; [reflexivity|]. split; [exact Ha|]. split; [reflexivity|].
  apply (log_mode_never_throws sample_errors
           (steady ["ERROR_ZERO_BALANCE"] "CAPCHA_NOT_READY") default_client start
           eq_refl Ha eq_refl).
Defined.

Lemma missing_parameter_fails_fast_witness :
  decodeHCaptcha sample_errors (scripted ["OK|71"]) throwing_client
    (mkSite (Some "") (Some "https://example.org")) 20 start
  = Some (Throw (Error "Missing sitekey parameter"), log EvNow start).
Proof.
  apply (missing_parameter_fails_fast sample_errors (scripted ["OK|71"])
           throwing_client (mkSite (Some "") (Some "https://example.org")) 20 start).
  - reflexivity.
  - left. reflexivity.
Defined.


Lemma image_sources_witness :
  _loadCaptcha (scripted []) default_client
    (mkImage (Some "") (Some "") (Some "captcha.png") None) start
  = (Ret "base64:", start) /\
  _loadCaptcha (scripted []) default_client
    (mkImage (Some "") None (Some "") None) start
  = (Ret "", log (EvWarn "No image data received") start) /\
  _loadCaptcha (scripted []) default_client url_image start
  = (Ret "base64:body of https://example.org/c.png",
     {| clock := 1700000000080; requests := 0; timers := 0;
        trace := [EvDownload "https://example.org/c.png"] |}).
Proof.
  split; [|split].
  - apply (image_sources (scripted []) default_client
             (mkImage (Some "") (Some "") (Some "captcha.png") None) start);
      reflexivity.
  - apply (proj1 (proj2 (proj2 (proj2 (proj2 (image_sources (scripted []) default_client
             (mkImage (Some "") None (Some "") None) start)))))).
    repeat split.
  - apply (proj1 (proj2 (proj2 (proj2 (image_sources (scripted []) default_client
             url_image start))))
             "https://example.org/c.png");
      (reflexivity || discriminate).
Defined.

Lemma rejected_upload_warns_twice_witness :
  exists w',
    _upload sample_errors (scripted ["ERROR_ZERO_BALANCE"]) default_client start
    = (Ret {| _id := Spec.second_field "ERROR_ZERO_BALANCE"; _text := str "";
              _apiResponse := "" |}, w') /\
    trace w' = trace start ++
               [EvRequest "in" "post";
                EvWarn "You don't have funds on your account.";
                EvWarn "You don't have funds on your account."].
Proof.
  apply (rejected_upload_warns_twice sample_errors (scripted ["ERROR_ZERO_BALANCE"])
           default_client "ERROR_ZERO_BALANCE"
           "You don't have funds on your account." start);
    (reflexivity || discriminate).
Defined.

Lemma returned_id_is_the_uploaded_witness :
  exists res, http (scripted ["OK|71"; "OK|"; "OK|abc"]) (requests start)
              = Ret (Text res) /\
              _id (mkCaptcha (str "71") (str "abc") "OK|abc") = Spec.second_field res.
Proof.
  apply (proj1 (returned_id_is_the_uploaded sample_errors
                  (scripted ["OK|71"; "OK|"; "OK|abc"]) default_client 20 start
                  (mkCaptcha (str "71") (str "abc") "OK|abc")
                  {| clock := 1700000010360; requests := 3; timers := 2;
                     trace := [EvNow; EvRequest "in" "post";
                               EvSleep (Num.of_Z 5000) 5000; EvNow;
                               EvRequest "res" "get";
                               EvSleep (Num.of_Z 5000) 5000; EvNow;
                               EvRequest "res" "get"] |})
          image).
  vm_compute. reflexivity.
Defined.

Lemma next_answer_is_returned_witness :
  exists w',
    poll sample_errors (scripted ["OK|71"; "OK|abc"]) default_client (Num.of_Z 5000)
         (clock start) 1 (mkCaptcha (str "71") (str "") "")
         {| clock := 1700000000120; requests := 1; timers := 0;
            trace := [EvNow; EvRequest "in" "post"] |}
    = Some (Ret {| _id := str "71"; _text := str "abc"; _apiResponse := "OK|abc" |}, w') /\
    requests w' = 2%nat /\
    trace w' = [EvNow; EvRequest "in" "post"] ++
               [EvSleep (Num.of_Z 5000) 5000; EvNow; EvRequest "res" "get"].
Proof.
  apply (next_answer_is_returned sample_errors (scripted ["OK|71"; "OK|abc"])
           default_client (Num.of_Z 5000) (clock start) 0
           (mkCaptcha (str "71") (str "") "")
           {| clock := 1700000000120; requests := 1; timers := 0;
              trace := [EvNow; EvRequest "in" "post"] |} "OK|abc" "abc").
  - reflexivity.
  - reflexivity.
  - reflexivity.
  - repeat split; [left; reflexivity | discriminate].
  - reflexivity.
  - discriminate.
Defined.

Lemma answer_with_ERROR_is_rejected_witness :
  exists w1,
    trace w1 = trace start ++ [EvRequest "res" "get"] /\
    captcha sample_errors (scripted ["OK|TERROR9"]) throwing_client (str "71") start
    = (Throw (Error "Unknown 2Captcha error: OK|TERROR9"), w1).
Proof.
  apply (answer_with_ERROR_is_rejected sample_errors (scripted ["OK|TERROR9"])
           throwing_client (str "71") "TERROR9" start).
  - left. reflexivity.
  - reflexivity.
  - reflexivity.
Defined.

Lemma report_verdict_witness :
  exists w',
    report sample_errors (scripted ["ERROR_WRONG_CAPTCHA_ID"]) default_client
           (str "71") true start = (Ret false, w').
Proof.
  apply (proj2 (report_verdict sample_errors (scripted ["ERROR_WRONG_CAPTCHA_ID"])
                  default_client (str "71") true start) eq_refl
           "ERROR_WRONG_CAPTCHA_ID" eq_refl).
Defined.


Lemma upload_form_witness :
  Form.upload_args
    ({[ "path" := JStr "captcha.png"; "base64" := JStr "iVBORw0KGgo=" ]}
     : gmap string jsval)
    !! "path" = None.
Proof.
  apply (proj1 (upload_form
                  ({[ "path" := JStr "captcha.png"; "base64" := JStr "iVBORw0KGgo=" ]}
                   : gmap string jsval))).
  unfold Props.local_keys. repeat constructor.
Defined.

Lemma decode_form_witness :
  Form.upload_args
    (Form.decode_options ({[ "path" := JStr "captcha.png" ]} : gmap string jsval) "")
    !! "body" = None.
Proof.
  apply (decode_form ({[ "path" := JStr "captcha.png" ]} : gmap string jsval) "").
  reflexivity.
Defined.

Lemma coordinates_of_listed_points_witness :
  coordinates (mkCaptcha (str "71") (str "coordinates:x=39,y=59;x=252,y=72")
                         "OK|coordinates:x=39,y=59;x=252,y=72")
  = Ret [[Int 39; Int 59]; [Int 252; Int 72]].
Proof.
  apply (coordinates_of_listed_points (str "71") "OK|coordinates:x=39,y=59;x=252,y=72"
           "coordinates:" ";" [("39", "59"); ("252", "72")]).
  - repeat (apply no_x_cons; [discriminate|]). exact no_x_nil.
  - repeat (apply no_x_cons; [discriminate|]). exact no_x_nil.
  - reflexivity.
  - repeat constructor; discriminate.
Defined.

Lemma indexes_of_listed_tiles_witness :
  indexes (mkCaptcha (str "71") (str "click:1/4/07") "OK|click:1/4/07")
  = Ret [Int 1; Int 4; Int 7].
Proof.
  apply (indexes_of_listed_tiles (str "71") "OK|click:1/4/07" "/" ["1"; "4"; "07"]).
  - discriminate.
  - reflexivity.
  - repeat constructor; discriminate.
Defined.

(** ** Replies without an answer, and fields with ["|"] *)
Section Fields.

Variable errors : gmap string string.
Variable env : Env.
Variable this : TwoCaptchaClient.

(** X17: a reply the table knows as pending and that has no ["|"] ends a
    loop at once: the lookup leaves [undefined] in [text], which is not [''],
    so the Captcha is returned unanswered after this one sleep and request,
    in both modes and before the deadline. *)
Theorem pending_reply_ends_loop (interval : Num.t) (startedAt : Z) (fuel : nat)
    (c : Captcha) (w : World) (res : string) :
  is_empty_string (_text c) = true ->
  Num.int_gt
    (clock w + (timer_delay interval + Z.of_N (timer_late env (timers w))) - startedAt)
    (timeout this) = false ->
  http env (requests w) = Ret (Text res) ->
  errors !! res = Some not_solved_yet ->
  JS.includes "|" res = false ->
  exists w',
    poll errors env this interval startedAt (S fuel) c w
    = Some (Ret {| _id := _id c; _text := undefined; _apiResponse := res |}, w') /\
    requests w' = S (requests w) /\
    trace w' = trace w ++
               [EvSleep interval
                  (timer_delay interval + Z.of_N (timer_late env (timers w)));
                EvNow; EvRequest "res" "get"].
Proof.
  intros He Hin Hh Hp Hn.
  assert (Hv : forall w0, _validateResponse errors this (Text res) w0 = (Ret false, w0)).
  { intros w0. rewrite (validateResponse_message errors this (Text res) not_solved_yet).
    - now rewrite decide_True.
    - rewrite validation_message_text. now rewrite Hp. }
  rewrite poll_unfold, He, poll_turn_unfold. cbn [_sleep snd clock].
  rewrite Hin.
  unfold captcha, _request, bind, HTTPRequest_request.
  cbn [log requests]. rewrite Hh, Hv. unfold ret.
  cbn [await JS.split_receiver]. rewrite split_second.
  destruct (second_field_form res "" "" Hn eq_refl) as (_ & _ & ->).
  rewrite poll_answered by reflexivity.
  eexists. split; [reflexivity|]. split; [reflexivity|].
  cbn. now rewrite <- !app_assoc.
Qed.

Lemma includes_pipe_cons (c : ascii) (s : string) :
  JS.includes "|" (String c s) =
  if decide ("|"%char = c) then true else JS.includes "|" s.
Proof.
  rewrite includes_unfold. cbn [JS.startsWith].
  destruct (decide ("|"%char = c)); [now destruct s | reflexivity].
Qed.

Lemma includes_pipe_snoc (a : string) (c : ascii) :
  JS.includes "|" a = false -> c <> "|"%char ->
  JS.includes "|" (a +:+ String c "") = false.
Proof.
  intros Ha Hc. induction a as [|x a IH]; cbn [String.append].
  - rewrite includes_pipe_cons. destruct (decide _); [congruence | reflexivity].
  - rewrite includes_pipe_cons in *. destruct (decide _); [discriminate | now apply IH].
Qed.

Lemma pieces_without_pipe (cur s : string) :
  JS.includes "|" cur = false ->
  Forall (fun f => JS.includes "|" f = false) (JS.pieces "|" cur s).
Proof.
  revert cur; induction s as [|c s IH]; intros cur Hc; cbn [JS.pieces].
  - now constructor.
  - destruct (decide (c = "|"%char)) as [->|Hne].
    + constructor; [exact Hc | now apply IH].
    + apply IH. now apply includes_pipe_snoc.
Qed.

Lemma second_field_without_pipe (res t : string) :
  Spec.second_field res = str t -> JS.includes "|" t = false.
Proof.
  unfold Spec.second_field, Spec.fields, JS.at_index.
  destruct (JS.pieces "|" "" res !! 1%nat) as [f|] eqn:E; [|discriminate].
  intros [= <-].
  pose proof (pieces_without_pipe "" res eq_refl) as H.
  rewrite Forall_lookup in H. exact (H _ _ E).
Qed.

(** X18: the text and the id of a Captcha are cut at the next ["|"]: the
    text a lookup stores and the id an upload stores never contain one, and
    for a reply [a|b|r] they are [b], the rest being dropped. *)
Theorem fields_are_cut_at_pipes (captchaId : value) (w : World) (c : Captcha)
    (w' : World) :
  (captcha errors env this captchaId w = (Ret c, w') ->
   forall t, _text c = str t -> JS.includes "|" t = false) /\
  (_upload errors env this w = (Ret c, w') ->
   forall i, _id c = str i -> JS.includes "|" i = false) /\
  (forall a b r, JS.includes "|" a = false -> JS.includes "|" b = false ->
     Spec.second_field (a +:+ "|" +:+ b +:+ "|" +:+ r) = str b).
Proof.
  repeat split.
  - intros H t Ht. apply captcha_returns in H as (res & _ & ->).
    now apply (second_field_without_pipe res).
  - intros H i Hi. apply upload_returns in H as (res & _ & ->).
    now apply (second_field_without_pipe res).
  - intros a b r Ha Hb. now destruct (second_field_form a b r Ha Hb) as (_ & -> & _).
Qed.

End Fields.

Lemma pending_reply_ends_loop_witness :
  exists w',
    poll sample_errors (scripted ["OK|71"; "CAPCHA_NOT_READY"; "OK|abc"])
         throwing_client (Num.of_Z 5000) (clock start) 3
         (mkCaptcha (str "71") (str "") "")
         {| clock := 1700000000120; requests := 1; timers := 0;
            trace := [EvNow; EvRequest "in" "post"] |}
    = Some (Ret {| _id := str "71"; _text := undefined;
                   _apiResponse := "CAPCHA_NOT_READY" |}, w') /\
    requests w' = 2%nat /\
    trace w' = [EvNow; EvRequest "in" "post"] ++
               [EvSleep (Num.of_Z 5000) 5000; EvNow; EvRequest "res" "get"].
Proof.
  apply (pending_reply_ends_loop sample_errors
           (scripted ["OK|71"; "CAPCHA_NOT_READY"; "OK|abc"]) throwing_client
           (Num.of_Z 5000) (clock start) 2 (mkCaptcha (str "71") (str "") "")
           {| clock := 1700000000120; requests := 1; timers := 0;
              trace := [EvNow; EvRequest "in" "post"] |} "CAPCHA_NOT_READY").
  - reflexivity.
  - reflexivity.
  - reflexivity.
  - reflexivity.
  - reflexivity.
Defined.

Lemma fields_are_cut_at_pipes_witness :
  captcha sample_errors (scripted ["OK|abc|def"]) default_client (str "71") start
  = (Ret (mkCaptcha (str "71") (str "abc") "OK|abc|def"),
     {| clock := 1700000000120; requests := 1; timers := 0;
        trace := [EvRequest "res" "get"] |}) /\
  JS.includes "|" "abc" = false.
Proof.
  split; [reflexivity|].
  apply (proj1 (fields_are_cut_at_pipes sample_errors (scripted ["OK|abc|def"])
                  default_client (str "71") start
                  (mkCaptcha (str "71") (str "abc") "OK|abc|def")
                  {| clock := 1700000000120; requests := 1; timers := 0;
                     trace := [EvRequest "res" "get"] |})
           eq_refl "abc" eq_refl).
Defined.
